(** * postflow: posts, reactions, secondary indices and rankings

    A shallow embedding of the Go package [postflow] (weedbox/postflow):
    the in-memory post store ([InMemoryPostStore]) with its user and tag
    indices, the reaction ledger, the listing / trending queries, and the
    [PostManagerImpl] facade that sits on top of a [PostStore].

    Conventions of the embedding.
    - Go's [int] is a 64-bit two's complement integer: it is a [Z] and every
      addition of the source goes through [int_add], which wraps around.
    - [time.Time] is an instant on a line: a [Z]; [Before] is [<], [After]
      is [>].
    - Go maps are stdpp [gmap]s.  A nil map and an empty map differ only
      for the [Reactions] field of a post (the source tests it for nil),
      which is therefore an [option].
    - The store owns what it stores: a post handed to [SavePost] is a value,
      and so is its counter map.  In the source the store keeps the pointer
      it is given.  A caller that goes on assigning to the fields of that
      object changes the stored post behind the back of the methods; this
      is the step [write_through], which is no method and appears in no run
      unless it is named.  A caller that gives one counter map to two posts
      is outside the model; this includes saving, under another ID, the
      copy that [GetPost] returns, which shares its map with the stored
      post.
    - The store is one record and every method is a function from the store
      before the call to the store after it; the mutex of the source makes
      each call atomic, which is what a function is.
    - The order in which Go ranges over a map, and the order in which
      [sort.Slice] leaves elements that compare equal, are not fixed by the
      language.  Both are operations of a [GoRuntime], of which the theorems
      only use the contract. *)

From Stdlib Require Import ZArith Lia.
From stdpp Require Import base gmap strings list fin_maps sorting.

#[local] Set Warnings "-clear-no-such-hyp".

#[local] Open Scope Z_scope.
#[local] Open Scope string_scope.
#[local] Open Scope list_scope.

(** ** Machine integers *)

Module GoInt.

Definition min_int : Z := - 2 ^ 63.
Definition max_int : Z := 2 ^ 63 - 1.

(** The values an [int] can hold. *)
Definition int_range (z : Z) : Prop := min_int <= z <= max_int.

(** Two's complement wrap-around of a mathematical integer to 64 bits. *)
Definition int_wrap (z : Z) : Z := (z + 2 ^ 63) mod 2 ^ 64 - 2 ^ 63.

Definition int_add (a b : Z) : Z := int_wrap (a + b).
Definition int_sub (a b : Z) : Z := int_wrap (a - b).

End GoInt.
Export GoInt.

(** ** Data model (postflow.go) *)

(** [type ReactionType uint8] *)
Definition ReactionType : Type := Z.

Definition ReactionNone : ReactionType := 0.
Definition ReactionLike : ReactionType := 1.
Definition ReactionLove : ReactionType := 2.
Definition ReactionHaha : ReactionType := 3.
Definition ReactionWow : ReactionType := 4.
Definition ReactionSad : ReactionType := 5.
Definition ReactionAngry : ReactionType := 6.

(** [type MediaType uint8] *)
Definition MediaType : Type := Z.

Record Media : Type := mkMedia {
  MediaID : string;
  MediaKind : MediaType;
  MediaURL : string;
  MediaThumbnailURL : string;
  MediaDescription : string;
  MediaWidth : Z;
  MediaHeight : Z;
  MediaDuration : Z;
  MediaFileSize : Z;
  MediaFileName : string;
  MediaMimeType : string;
  MediaCreatedAt : Z
}.

(** [type Post struct].  [Reactions] is [None] for a nil map. *)
Record Post : Type := mkPost {
  ID : string;
  UserID : string;
  Content : string;
  PostMedia : list Media;
  Tags : list string;
  CreatedAt : Z;
  UpdatedAt : Z;
  Reactions : option (gmap ReactionType Z);
  Comments : Z;
  Shares : Z;
  Visibility : string
}.

(** [type TimeRange struct] *)
Record TimeRange : Type := mkTimeRange {
  Start : Z;
  End_ : Z
}.

(** [type PostFilter struct]; the fields carry the prefix [Filter] because
    [Post] already owns the plain names.  [FilterTimeRange] is a pointer in
    the source: [None] is nil. *)
Record PostFilter : Type := mkPostFilter {
  FilterUserID : string;
  FilterTags : list string;
  FilterTimeRange : option TimeRange;
  FilterVisibility : string;
  FilterLimit : Z;
  FilterOffset : Z;
  FilterSortBy : string;
  FilterSortOrder : string
}.

(** The errors of the package: the three sentinel values of the store, and
    the ad hoc [errors.New] values of the manager. *)
Inductive error : Type :=
  | ErrPostNotFound
  | ErrPermissionDenied
  | ErrInvalidReaction
  | ErrMessage (msg : string).

(** A Go result pair [(value, error)]. *)
Inductive result (A : Type) : Type :=
  | Ok (a : A)
  | Fail (e : error).
Arguments Ok {A} a.
Arguments Fail {A} e.

(** [type UserReaction struct] *)
Record UserReaction : Type := mkUserReaction {
  ReactorID : string;
  ReactionKind : ReactionType;
  ReactedAt : Z
}.

(** Reading a Go map of counters: a missing key, and any key of a nil map,
    reads as zero. *)
Definition count_of (m : option (gmap ReactionType Z)) (k : ReactionType) : Z :=
  match m with
  | Some c => default 0 (c !! k)
  | None => 0
  end.

Arguments count_of : simpl never.

(** Reading an index: a missing key reads as the nil slice. *)
Definition index_get (idx : gmap string (list string)) (k : string) : list string :=
  default [] (idx !! k).

(** Assignments to the fields of a post that the package writes. *)
Definition with_ID (v : string) (p : Post) : Post :=
  mkPost v (UserID p) (Content p) (PostMedia p) (Tags p) (CreatedAt p)
         (UpdatedAt p) (Reactions p) (Comments p) (Shares p) (Visibility p).

Definition with_CreatedAt (v : Z) (p : Post) : Post :=
  mkPost (ID p) (UserID p) (Content p) (PostMedia p) (Tags p) v
         (UpdatedAt p) (Reactions p) (Comments p) (Shares p) (Visibility p).

Definition with_UpdatedAt (v : Z) (p : Post) : Post :=
  mkPost (ID p) (UserID p) (Content p) (PostMedia p) (Tags p) (CreatedAt p)
         v (Reactions p) (Comments p) (Shares p) (Visibility p).

Definition with_Tags (v : list string) (p : Post) : Post :=
  mkPost (ID p) (UserID p) (Content p) (PostMedia p) v (CreatedAt p)
         (UpdatedAt p) (Reactions p) (Comments p) (Shares p) (Visibility p).

Definition with_Reactions (v : option (gmap ReactionType Z)) (p : Post) : Post :=
  mkPost (ID p) (UserID p) (Content p) (PostMedia p) (Tags p) (CreatedAt p)
         (UpdatedAt p) v (Comments p) (Shares p) (Visibility p).

(** ** The runtime: map iteration and [sort.Slice] *)

(** The documented requirement on the [less] argument of [sort.Slice]
    (package sort, [Interface.Less]): a transitive ordering in both senses. *)
Definition less_transitive {A : Type} (less : A → A → bool) : Prop :=
  (∀ x y z, less x y = true → less y z = true → less x z = true) ∧
  (∀ x y z, less x y = false → less y z = false → less x z = false).

(** [x] may stand before [y] in the output of a sort by [less]: [y] does not
    have to sort before [x], or [x] has to sort before [y] as well. *)
Definition in_order {A : Type} (less : A → A → bool) (x y : A) : Prop :=
  less y x = false ∨ less x y = true.

Class GoRuntime : Type := {
  (** [for k, v := range m]: the entries of [m], each once, in some order. *)
  map_range : ∀ {K : Type} `{Countable K} {V : Type}, gmap K V → list (K * V);
  map_range_perm : ∀ {K : Type} `{Countable K} {V : Type} (m : gmap K V),
    map_range m ≡ₚ map_to_list m;
  (** [sort.Slice(s, less)]. *)
  sort_Slice : ∀ {A : Type}, (A → A → bool) → list A → list A;
  sort_Slice_perm : ∀ {A : Type} (less : A → A → bool) (l : list A),
    sort_Slice less l ≡ₚ l;
  sort_Slice_sorted : ∀ {A : Type} (less : A → A → bool) (l : list A),
    less_transitive less → StronglySorted (in_order less) (sort_Slice less l)
}.

(** ** The in-memory store (the store half of gorm_poststore_test.go) *)

Module InMemoryPostStore.

(** [type InMemoryPostStore struct], without its mutex. *)
Record t : Type := mkStore {
  posts : gmap string Post;
  reactions : gmap string (gmap string UserReaction);
  userPosts : gmap string (list string);
  tagPosts : gmap string (list string)
}.

(** [NewInMemoryPostStore] *)
Definition NewInMemoryPostStore : t :=
  {| posts := ∅; reactions := ∅; userPosts := ∅; tagPosts := ∅ |}.

(** [idx[k] = append(idx[k], pid)] *)
Definition index_append (idx : gmap string (list string)) (k pid : string)
  : gmap string (list string) :=
  <[k := index_get idx k ++ [pid]]> idx.

(** The scan [for i, pid := range l { if pid == id { ...; break } }]:
    the slice without the first occurrence of [id], if there is one. *)
Fixpoint cut_first (id : string) (l : list string) : option (list string) :=
  match l with
  | [] => None
  | pid :: rest =>
      if decide (pid = id) then Some rest
      else cons pid <$> cut_first id rest
  end.

(** The removal loop over one index entry: [idx[k]] is reassigned only
    when the scan finds [pid]. *)
Definition index_remove (idx : gmap string (list string)) (k pid : string)
  : gmap string (list string) :=
  match cut_first pid (index_get idx k) with
  | Some l' => <[k := l']> idx
  | None => idx
  end.

(** The second loop of the update branch: append unless already there. *)
Definition index_add_missing (idx : gmap string (list string)) (k pid : string)
  : gmap string (list string) :=
  if bool_decide (pid ∈ index_get idx k) then idx else index_append idx k pid.

(** [SavePost]; it always returns nil. *)
Definition SavePost (post : Post) (s : t) : t * option error :=
  match posts s !! ID post with
  | None =>
      ({| posts := <[ID post := post]> (posts s);
          reactions := reactions s;
          userPosts := index_append (userPosts s) (UserID post) (ID post);
          tagPosts :=
            foldl (λ idx tag, index_append idx tag (ID post))
                  (tagPosts s) (Tags post) |},
       None)
  | Some oldPost =>
      let dropped :=
        foldl (λ idx tag, index_remove idx tag (ID post))
              (tagPosts s) (Tags oldPost) in
      ({| posts := <[ID post := post]> (posts s);
          reactions := reactions s;
          userPosts := userPosts s;
          tagPosts :=
            foldl (λ idx tag, index_add_missing idx tag (ID post))
                  dropped (Tags post) |},
       None)
  end.

(** Not a method.  [SavePost] stores the pointer it is given
    ([s.posts[post.ID] = post]), so an assignment that the caller makes
    afterwards to a field of that object is an assignment to the stored
    post: [write_through postID f] is the store after the caller has
    applied [f] to the object stored under [postID]. *)
Definition write_through (postID : string) (f : Post → Post) (s : t) : t :=
  match posts s !! postID with
  | Some post =>
      {| posts := <[postID := f post]> (posts s);
         reactions := reactions s;
         userPosts := userPosts s;
         tagPosts := tagPosts s |}
  | None => s
  end.

(** [GetPost]: a copy of the stored post.  The copy of the source is
    shallow ([postCopy := *post]): its [Reactions] map is the map of the
    stored post.  Here the copy is a value of its own, which is the same
    thing as long as the caller does not save the copy under another ID;
    statements over runs say so where it matters ("a counter map of its
    own"). *)
Definition GetPost (postID : string) (s : t) : result Post :=
  match posts s !! postID with
  | Some post => Ok post
  | None => Fail ErrPostNotFound
  end.

(** [DeletePost] *)
Definition DeletePost (postID userID : string) (s : t) : t * option error :=
  match posts s !! postID with
  | None => (s, Some ErrPostNotFound)
  | Some post =>
      if decide (UserID post = userID) then
        ({| posts := delete postID (posts s);
            reactions := delete postID (reactions s);
            userPosts := index_remove (userPosts s) userID postID;
            tagPosts :=
              foldl (λ idx tag, index_remove idx tag postID)
                    (tagPosts s) (Tags post) |},
         None)
      else (s, Some ErrPermissionDenied)
  end.

(** The counter map of a post as the reaction methods write it:
    [if post.Reactions == nil { post.Reactions = make(...) }]. *)
Definition counters (post : Post) : gmap ReactionType Z :=
  default ∅ (Reactions post).

(** [post.Reactions[k] = post.Reactions[k] + 1] *)
Definition bump (k : ReactionType) (c : gmap ReactionType Z) : gmap ReactionType Z :=
  <[k := int_add (default 0 (c !! k)) 1]> c.

(** [if n := c[k]; n > 0 { c[k] = n - 1 }] *)
Definition drop_one (k : ReactionType) (c : gmap ReactionType Z) : gmap ReactionType Z :=
  let n := default 0 (c !! k) in
  if bool_decide (n > 0) then <[k := int_sub n 1]> c else c.

(** [SaveReaction]; [now] is the value of [time.Now()]. *)
Definition SaveReaction (now : Z) (postID userID : string)
    (reactionType : ReactionType) (s : t) : t * option error :=
  match posts s !! postID with
  | None => (s, Some ErrPostNotFound)
  | Some post =>
      if bool_decide (reactionType <= ReactionNone ∨ reactionType > ReactionAngry)
      then (s, Some ErrInvalidReaction)
      else
        (* the ledger of the post, created empty when it is missing *)
        let ledger := default ∅ (reactions s !! postID) in
        match ledger !! userID with
        | Some existingReaction =>
            if decide (ReactionKind existingReaction = reactionType) then
              ({| posts := posts s;
                  reactions := <[postID := ledger]> (reactions s);
                  userPosts := userPosts s;
                  tagPosts := tagPosts s |}, None)
            else
              let c :=
                bump reactionType
                  (drop_one (ReactionKind existingReaction) (counters post)) in
              let r :=
                {| ReactorID := ReactorID existingReaction;
                   ReactionKind := reactionType;
                   ReactedAt := now |} in
              ({| posts := <[postID := with_Reactions (Some c) post]> (posts s);
                  reactions := <[postID := <[userID := r]> ledger]> (reactions s);
                  userPosts := userPosts s;
                  tagPosts := tagPosts s |}, None)
        | None =>
            let r :=
              {| ReactorID := userID;
                 ReactionKind := reactionType;
                 ReactedAt := now |} in
            ({| posts :=
                  <[postID := with_Reactions (Some (bump reactionType (counters post))) post]>
                    (posts s);
                reactions := <[postID := <[userID := r]> ledger]> (reactions s);
                userPosts := userPosts s;
                tagPosts := tagPosts s |}, None)
        end
  end.

(** [DeleteReaction] *)
Definition DeleteReaction (postID userID : string)
    (reactionType : ReactionType) (s : t) : t * option error :=
  match posts s !! postID with
  | None => (s, Some ErrPostNotFound)
  | Some post =>
      match reactions s !! postID with
      | None => (s, None)
      | Some postReactions =>
          match postReactions !! userID with
          | None => (s, None)
          | Some userReaction =>
              if decide (ReactionKind userReaction = reactionType) then
                let post' :=
                  match Reactions post with
                  | Some c => with_Reactions (Some (drop_one reactionType c)) post
                  | None => post
                  end in
                ({| posts := <[postID := post']> (posts s);
                    reactions := <[postID := delete userID postReactions]> (reactions s);
                    userPosts := userPosts s;
                    tagPosts := tagPosts s |}, None)
              else (s, None)
          end
      end
  end.

(** [GetUserReaction]: [Ok None] is the pair (nil, nil). *)
Definition GetUserReaction (postID userID : string) (s : t)
  : result (option ReactionType) :=
  match posts s !! postID with
  | None => Fail ErrPostNotFound
  | Some _ =>
      match reactions s !! postID with
      | None => Ok None
      | Some postReactions => Ok (ReactionKind <$> postReactions !! userID)
      end
  end.

(** [GetReactionCounts]: a copy of the counter map, empty for nil. *)
Definition GetReactionCounts (postID : string) (s : t)
  : result (gmap ReactionType Z) :=
  match posts s !! postID with
  | None => Fail ErrPostNotFound
  | Some post => Ok (counters post)
  end.

(** The slice expression [l[lo:hi]].  It panics ([None]) unless
    [0 <= lo <= hi <= cap(l)]; at every use below [hi] has been clamped
    to [len(l)], so the length stands for the capacity. *)
Definition slice_expr {A : Type} (l : list A) (lo hi : Z) : option (list A) :=
  if bool_decide (0 <= lo ∧ lo <= hi ∧ hi <= Z.of_nat (length l))
  then Some (take (Z.to_nat (hi - lo)) (drop (Z.to_nat lo) l))
  else None.

(** The block under "Apply pagination", the same in [ListPosts],
    [GetUserFeed] and [GetReactedUsers]. *)
Definition paginate {A : Type} (limit offset : Z) (result : list A)
  : option (list A) :=
  if bool_decide (limit > 0) then
    let end_ := int_add offset limit in
    let end_ :=
      if bool_decide (end_ > Z.of_nat (length result))
      then Z.of_nat (length result) else end_ in
    if bool_decide (offset < Z.of_nat (length result))
    then slice_expr result offset end_
    else Some []
  else Some result.

(** The two [continue] tests of [ListPosts]: visibility equality and the
    open time interval. *)
Definition passes (filter : PostFilter) (post : Post) : bool :=
  negb (bool_decide (FilterVisibility filter ≠ "")
        && bool_decide (Visibility post ≠ FilterVisibility filter))
  && match FilterTimeRange filter with
     | Some tr =>
         negb (negb (bool_decide (CreatedAt post > Start tr))
               || negb (bool_decide (CreatedAt post < End_ tr)))
     | None => true
     end.

(** Reading [candidateIDs[pid]]: false for a missing key and for nil. *)
Definition candidate (candidateIDs : option (gmap string bool)) (pid : string)
  : bool :=
  match candidateIDs with
  | Some c => default false (c !! pid)
  | None => false
  end.

(** The inner loop of the tag filter, for the tag at index [i]. *)
Definition tag_pass (candidateIDs : option (gmap string bool)) (i : nat)
    (ids : list string) (tagCandidates : gmap string bool) : gmap string bool :=
  foldl (λ acc pid,
           if bool_decide (i = 0%nat) || candidate candidateIDs pid
           then <[pid := true]> acc else acc)
        tagCandidates ids.

(** The outer loop [for i, tag := range filter.Tags], from index [i]. *)
Fixpoint tag_loop (idx : gmap string (list string))
    (candidateIDs : option (gmap string bool)) (i : nat) (tags : list string)
    (tagCandidates : gmap string bool) : gmap string bool :=
  match tags with
  | [] => tagCandidates
  | tag :: rest =>
      tag_loop idx candidateIDs (S i) rest
               (tag_pass candidateIDs i (index_get idx tag) tagCandidates)
  end.

(** The candidate set of [ListPosts]; [None] is the nil map, which stands
    for "no index was consulted". *)
Definition candidateIDs (filter : PostFilter) (s : t) : option (gmap string bool) :=
  let byUser :=
    if decide (FilterUserID filter = "") then None
    else Some (foldl (λ acc pid, <[pid := true]> acc) ∅
                     (index_get (userPosts s) (FilterUserID filter))) in
  if bool_decide (Z.of_nat (length (FilterTags filter)) > 0)
  then Some (tag_loop (tagPosts s) byUser 0 (FilterTags filter) ∅)
  else byUser.

Section Queries.
Context `{GoRuntime}.

(** [sumReactions]: ranging over a nil map runs the body zero times. *)
Definition sumReactions (reactions : option (gmap ReactionType Z)) : Z :=
  match reactions with
  | Some m => foldl (λ sum kv, int_add sum kv.2) 0 (map_range m)
  | None => 0
  end.

(** The closure given to [sort.Slice] in [ListPosts]. *)
Definition sort_less (filter : PostFilter) (a b : Post) : bool :=
  let less :=
    if decide (FilterSortBy filter = "created_at") then
      bool_decide (CreatedAt a < CreatedAt b)
    else if decide (FilterSortBy filter = "updated_at") then
      bool_decide (UpdatedAt a < UpdatedAt b)
    else if decide (FilterSortBy filter = "reactions") then
      bool_decide (sumReactions (Reactions a) < sumReactions (Reactions b))
    else if decide (FilterSortBy filter = "comments") then
      bool_decide (Comments a < Comments b)
    else if decide (FilterSortBy filter = "shares") then
      bool_decide (Shares a < Shares b)
    else
      bool_decide (CreatedAt a < CreatedAt b) in
  if decide (FilterSortOrder filter = "desc") then negb less else less.

(** The posts that [ListPosts] collects before it sorts. *)
Definition collect (filter : PostFilter) (s : t) : list Post :=
  match candidateIDs filter s with
  | None =>
      foldl (λ result kv, if passes filter kv.2 then result ++ [kv.2] else result)
            [] (map_range (posts s))
  | Some c =>
      foldl (λ result kv,
               match posts s !! kv.1 with
               | Some post =>
                   if passes filter post then result ++ [post] else result
               | None => result
               end)
            [] (map_range c)
  end.

(** The block under "Sort results": nothing happens for an empty
    [SortBy]. *)
Definition sorted_results (filter : PostFilter) (s : t) : list Post :=
  if decide (FilterSortBy filter = "") then collect filter s
  else sort_Slice (sort_less filter) (collect filter s).

(** [ListPosts].  The error it returns is always nil and is left out;
    [None] is the panic of the slice expression. *)
Definition ListPosts (filter : PostFilter) (s : t) : option (list Post) :=
  paginate (FilterLimit filter) (FilterOffset filter) (sorted_results filter s).

(** The public posts, as both feeds collect them. *)
Definition public_posts (s : t) : list Post :=
  foldl (λ result kv,
           if decide (Visibility kv.2 = "public") then result ++ [kv.2]
           else result)
        [] (map_range (posts s)).

(** [GetUserFeed] *)
Definition GetUserFeed (userID : string) (limit offset : Z) (s : t)
  : option (list Post) :=
  paginate limit offset
    (sort_Slice (λ a b, bool_decide (CreatedAt a > CreatedAt b))
                (public_posts s)).

(** The score computed inside the closure of [GetTrendingPosts]. *)
Definition engagement (p : Post) : Z :=
  int_add (int_add (sumReactions (Reactions p)) (Comments p)) (Shares p).

(** [GetTrendingPosts]; the error it returns is always nil. *)
Definition GetTrendingPosts (limit : Z) (s : t) : list Post :=
  let result :=
    sort_Slice (λ a b, bool_decide (engagement a > engagement b))
               (public_posts s) in
  if bool_decide (limit > 0) && bool_decide (limit < Z.of_nat (length result))
  then take (Z.to_nat limit) result
  else result.

(** [GetReactedUsers]; [reactionType] is a pointer, [None] is nil. *)
Definition GetReactedUsers (postID : string) (reactionType : option ReactionType)
    (limit offset : Z) (s : t) : option (result (list string)) :=
  match posts s !! postID with
  | None => Some (Fail ErrPostNotFound)
  | Some _ =>
      match reactions s !! postID with
      | None => Some (Ok [])
      | Some postReactions =>
          let userIDs :=
            foldl (λ acc kv,
                     if match reactionType with
                        | None => true
                        | Some k => bool_decide (ReactionKind kv.2 = k)
                        end
                     then acc ++ [kv.1] else acc)
                  [] (map_range postReactions) in
          let at_ (u : string) : Z :=
            default 0 (ReactedAt <$> postReactions !! u) in
          Ok <$> paginate limit offset
                   (sort_Slice (λ a b, bool_decide (at_ a > at_ b)) userIDs)
      end
  end.

End Queries.

End InMemoryPostStore.

(** ** The ordering that the GORM store asks for (gorm_poststore.go)

    [GormPostStore.ListPosts] builds an SQL query; the part of it that is
    plain Go is the string it hands to [query.Order]. *)

Module GormPostStore.

(** The argument of [query.Order] in [ListPosts], the block under "Apply
    sorting". *)
Definition ListPosts_order (filter : PostFilter) : string :=
  if decide (FilterSortBy filter ≠ "") then
    let sortField := FilterSortBy filter in
    let sortField :=
      if decide (sortField = "created_at" ∨ sortField = "updated_at" ∨
                 sortField = "comments" ∨ sortField = "shares")
      then sortField
      else if decide (sortField = "reactions") then "created_at"
      else "created_at" in
    let sortOrder :=
      if decide (FilterSortOrder filter = "asc") then "ASC" else "DESC" in
    sortField +:+ " " +:+ sortOrder
  else "created_at DESC".

End GormPostStore.

(** ** The store interface and the manager (the manager file) *)

(** [type PostStore interface].  Methods that read the clock take its value
    as [now]; a query that may panic returns an [option]. *)
Class PostStore (S : Type) : Type := {
  store_SavePost : Post → S → S * option error;
  store_GetPost : string → S → result Post;
  store_DeletePost : string → string → S → S * option error;
  store_ListPosts : PostFilter → S → option (result (list Post));
  store_GetUserFeed : string → Z → Z → S → option (result (list Post));
  store_GetTrendingPosts : Z → S → result (list Post);
  store_SaveReaction : Z → string → string → ReactionType → S → S * option error;
  store_DeleteReaction : string → string → ReactionType → S → S * option error;
  store_GetUserReaction : string → string → S → result (option ReactionType);
  store_GetReactedUsers :
    string → option ReactionType → Z → Z → S → option (result (list string));
  store_GetReactionCounts : string → S → result (gmap ReactionType Z)
}.

#[export] Instance InMemoryPostStore_PostStore `{GoRuntime}
  : PostStore InMemoryPostStore.t := {
  store_SavePost := InMemoryPostStore.SavePost;
  store_GetPost := InMemoryPostStore.GetPost;
  store_DeletePost := InMemoryPostStore.DeletePost;
  store_ListPosts f s := Ok <$> InMemoryPostStore.ListPosts f s;
  store_GetUserFeed u l o s := Ok <$> InMemoryPostStore.GetUserFeed u l o s;
  store_GetTrendingPosts l s := Ok (InMemoryPostStore.GetTrendingPosts l s);
  store_SaveReaction := InMemoryPostStore.SaveReaction;
  store_DeleteReaction := InMemoryPostStore.DeleteReaction;
  store_GetUserReaction := InMemoryPostStore.GetUserReaction;
  store_GetReactedUsers := InMemoryPostStore.GetReactedUsers;
  store_GetReactionCounts := InMemoryPostStore.GetReactionCounts
}.

Module PostManagerImpl.

Section Manager.
Context {S : Type} `{PostStore S}.

(** [CreatePost].  [post] is a pointer in the source and is written
    through: the post as the caller sees it after the call is part of
    the outcome.  [uuid] is what [uuid.New().String()] returns if it is
    called, [now] is [time.Now()]. *)
Definition CreatePost (uuid : string) (now : Z) (post : Post) (st : S)
  : S * Post * result string :=
  if decide (UserID post = "") then
    (st, post, Fail (ErrMessage "user ID is required"))
  else
    let post := if decide (ID post = "") then with_ID uuid post else post in
    let post := with_UpdatedAt now (with_CreatedAt now post) in
    let post :=
      match Reactions post with
      | None => with_Reactions (Some ∅) post
      | Some _ => post
      end in
    match store_SavePost post st with
    | (st', Some err) => (st', post, Fail err)
    | (st', None) => (st', post, Ok (ID post))
    end.

(** [GetPost] *)
Definition GetPost (postID : string) (st : S) : result Post :=
  store_GetPost postID st.

(** [UpdatePost] *)
Definition UpdatePost (now : Z) (post : Post) (st : S)
  : S * Post * option error :=
  if decide (ID post = "") then
    (st, post, Some (ErrMessage "post ID is required"))
  else
    match store_GetPost (ID post) st with
    | Fail err => (st, post, Some err)
    | Ok existingPost =>
        if decide (UserID existingPost = UserID post) then
          let post :=
            with_CreatedAt (CreatedAt existingPost) (with_UpdatedAt now post) in
          let '(st', err) := store_SavePost post st in
          (st', post, err)
        else (st, post, Some (ErrMessage "unauthorized to update this post"))
    end.

(** The remaining methods hand the call to the store. *)
Definition DeletePost (postID userID : string) (st : S) : S * option error :=
  store_DeletePost postID userID st.

Definition ListPosts (filter : PostFilter) (st : S)
  : option (result (list Post)) :=
  store_ListPosts filter st.

Definition GetUserFeed (userID : string) (limit offset : Z) (st : S)
  : option (result (list Post)) :=
  store_GetUserFeed userID limit offset st.

Definition GetTrendingPosts (limit : Z) (st : S) : result (list Post) :=
  store_GetTrendingPosts limit st.

Definition AddReaction (now : Z) (postID userID : string)
    (reactionType : ReactionType) (st : S) : S * option error :=
  store_SaveReaction now postID userID reactionType st.

Definition RemoveReaction (postID userID : string)
    (reactionType : ReactionType) (st : S) : S * option error :=
  store_DeleteReaction postID userID reactionType st.

Definition GetUserReaction (postID userID : string) (st : S)
  : result (option ReactionType) :=
  store_GetUserReaction postID userID st.

Definition GetReactedUsers (postID : string) (reactionType : option ReactionType)
    (limit offset : Z) (st : S) : option (result (list string)) :=
  store_GetReactedUsers postID reactionType limit offset st.

Definition GetReactionCounts (postID : string) (st : S)
  : result (gmap ReactionType Z) :=
  store_GetReactionCounts postID st.

End Manager.

End PostManagerImpl.

(** ** A runtime to compute with

    [sort.Slice] runs an insertion sort on slices of at most twelve
    elements ([insertionSortLessFunc] of package sort); [insertion_sort] is
    that loop.  Together with stdpp's enumeration of a map it gives one
    [GoRuntime], used wherever a store is run on concrete data. *)

Module RuntimeModel.

(** The inner loop [for j := i; j > a && less(j, j-1); j-- { swap }]:
    [x] enters at the right end of the sorted prefix, whose elements come
    here last first, and moves left while it is less than its neighbour. *)
Fixpoint sink {A : Type} (less : A → A → bool) (x : A) (prefix_rev : list A)
  : list A :=
  match prefix_rev with
  | [] => [x]
  | y :: rest => if less x y then y :: sink less x rest else x :: y :: rest
  end.

Definition insertion_sort {A : Type} (less : A → A → bool) (l : list A) : list A :=
  reverse (foldl (λ prefix_rev x, sink less x prefix_rev) [] l).

End RuntimeModel.

(** ** Sample data

    Posts in the shape of [createTestPost] of the test files, and the stores
    that the examples run on. *)

Module Fixtures.
Import InMemoryPostStore.

Definition sample_post (id user : string) (tags : list string) (created : Z) : Post :=
  {| ID := id; UserID := user; Content := "Test content"; PostMedia := [];
     Tags := tags; CreatedAt := created; UpdatedAt := created;
     Reactions := Some ∅; Comments := 0; Shares := 0; Visibility := "public" |}.

(** Runs [SavePost] for each post in turn, from the empty store. *)
Definition saved (ps : list Post) : t :=
  foldl (λ s p, (SavePost p s).1) NewInMemoryPostStore ps.

Definition no_filter : PostFilter :=
  {| FilterUserID := ""; FilterTags := []; FilterTimeRange := None;
     FilterVisibility := ""; FilterLimit := 0; FilterOffset := 0;
     FilterSortBy := ""; FilterSortOrder := "" |}.

Definition page (limit offset : Z) : PostFilter :=
  {| FilterUserID := ""; FilterTags := []; FilterTimeRange := None;
     FilterVisibility := ""; FilterLimit := limit; FilterOffset := offset;
     FilterSortBy := ""; FilterSortOrder := "" |}.

Definition sorted_by (field order : string) : PostFilter :=
  {| FilterUserID := ""; FilterTags := []; FilterTimeRange := None;
     FilterVisibility := ""; FilterLimit := 0; FilterOffset := 0;
     FilterSortBy := field; FilterSortOrder := order |}.

Definition by_tags (tags : list string) : PostFilter :=
  {| FilterUserID := ""; FilterTags := tags; FilterTimeRange := None;
     FilterVisibility := ""; FilterLimit := 0; FilterOffset := 0;
     FilterSortBy := ""; FilterSortOrder := "" |}.

Definition by_user_and_tags (user : string) (tags : list string) : PostFilter :=
  {| FilterUserID := user; FilterTags := tags; FilterTimeRange := None;
     FilterVisibility := ""; FilterLimit := 0; FilterOffset := 0;
     FilterSortBy := ""; FilterSortOrder := "" |}.

(** Eight posts, as in [TestListPosts]. *)
Definition eight_posts : t :=
  saved [sample_post "p1" "user1" ["test"] 1; sample_post "p2" "user1" ["test"] 2;
         sample_post "p3" "user1" ["test"] 3; sample_post "p4" "user1" ["test"] 4;
         sample_post "p5" "user1" ["test"] 5; sample_post "p6" "user2" ["test"] 6;
         sample_post "p7" "user2" ["test"] 7; sample_post "p8" "user2" ["test"] 8].

(** Posts with engagement, as in [TestGetTrendingPosts]. *)
Definition engaging_post (id : string) (created : Z)
    (counts : list (ReactionType * Z)) (comments shares : Z) : Post :=
  {| ID := id; UserID := "user1"; Content := "Test content"; PostMedia := [];
     Tags := ["test"; "golang"]; CreatedAt := created; UpdatedAt := created;
     Reactions := Some (list_to_map counts); Comments := comments;
     Shares := shares; Visibility := "public" |}.

(** Score 11: 5 likes, 2 hahas, 3 comments, 1 share. *)
Definition quiet_post (id : string) (created : Z) : Post :=
  engaging_post id created [(ReactionLike, 5); (ReactionHaha, 2)] 3 1.

(** Score 33: 10 likes, 8 wows, 10 comments, 5 shares. *)
Definition lively_post (id : string) (created : Z) : Post :=
  engaging_post id created [(ReactionLike, 10); (ReactionWow, 8)] 10 5.

(** The flow of [TestPostManagerUpdatePost], with a tag dropped instead of
    added: the caller creates a post through the manager, assigns a new tag
    list to the object it still holds, and hands the same object to
    [UpdatePost].  The result is the store after the update (and the error
    of the update). *)
Definition created_then_retagged `{GoRuntime} : t * option error :=
  let created :=
    PostManagerImpl.CreatePost "id1" 10
      (sample_post "" "user1" ["test"; "golang"] 0) NewInMemoryPostStore in
  let held := with_Tags ["test"] created.1.2 in
  let updated :=
    PostManagerImpl.UpdatePost 20 held
      (write_through "id1" (with_Tags ["test"]) created.1.1) in
  (updated.1.1, updated.2).

End Fixtures.

(** ** Vocabulary of the statements

    The quantities that the properties speak about, written independently
    of the code that computes them. *)

(** The sum of a list of counters, as a mathematical integer. *)
Definition sum_counts (l : list (ReactionType * Z)) : Z :=
  foldr (λ kv acc, kv.2 + acc) 0 l.

(** The sum of all per-kind reaction counts of a counter map. *)
Definition total_reactions (reactions : option (gmap ReactionType Z)) : Z :=
  match reactions with
  | Some m => sum_counts (map_to_list m)
  | None => 0
  end.

(** The engagement score of a post as a mathematical integer: the sum of
    all per-kind reaction counts, plus the comments, plus the shares. *)
Definition score (p : Post) : Z :=
  total_reactions (Reactions p) + Comments p + Shares p.

(** The quantity that a sort field of [PostFilter] names: the creation
    time, the update time, the sum of all reaction counts (as the code
    computes it, see [sumReactions_total]), the comments or the shares; any
    other field name stands for the creation time. *)
Definition sort_key `{GoRuntime} (field : string) (p : Post) : Z :=
  if decide (field = "updated_at") then UpdatedAt p
  else if decide (field = "reactions") then
    InMemoryPostStore.sumReactions (Reactions p)
  else if decide (field = "comments") then Comments p
  else if decide (field = "shares") then Shares p
  else CreatedAt p.

(** The reaction ledger of a post: its rows, one per user. *)
Definition ledger (s : InMemoryPostStore.t) (postID : string)
  : gmap string UserReaction :=
  default ∅ (InMemoryPostStore.reactions s !! postID).

(** The number of ledger rows of one kind. *)
Definition kind_rows (k : ReactionType) (rows : gmap string UserReaction) : nat :=
  size (filter (λ row, ReactionKind row.2 = k) rows).

(** The mutating calls on a store, and runs of them from the empty store. *)
Inductive op : Type :=
  | OpSavePost (post : Post)
  | OpDeletePost (postID userID : string)
  | OpSaveReaction (now : Z) (postID userID : string) (reactionType : ReactionType)
  | OpDeleteReaction (postID userID : string) (reactionType : ReactionType).

Definition run_op (o : op) (s : InMemoryPostStore.t) : InMemoryPostStore.t :=
  match o with
  | OpSavePost post => (InMemoryPostStore.SavePost post s).1
  | OpDeletePost postID userID => (InMemoryPostStore.DeletePost postID userID s).1
  | OpSaveReaction now postID userID k =>
      (InMemoryPostStore.SaveReaction now postID userID k s).1
  | OpDeleteReaction postID userID k =>
      (InMemoryPostStore.DeleteReaction postID userID k s).1
  end.

Definition run_from (s : InMemoryPostStore.t) (ops : list op) : InMemoryPostStore.t :=
  foldl (λ s o, run_op o s) s ops.

Definition run (ops : list op) : InMemoryPostStore.t :=
  run_from InMemoryPostStore.NewInMemoryPostStore ops.


(** A [SavePost] that does not touch the reaction counts: for every kind the
    saved post carries the count that the stored post of that ID has, and
    zero if no post of that ID is stored. *)
Definition keeps_counts (s : InMemoryPostStore.t) (post : Post) : Prop :=
  ∀ k, count_of (Reactions post) k
       = match InMemoryPostStore.posts s !! ID post with
         | Some old => count_of (Reactions old) k
         | None => 0
         end.

(** A run in which every [SavePost] keeps the counts of the store it is
    applied to. *)
Fixpoint counts_kept (s : InMemoryPostStore.t) (ops : list op) : Prop :=
  match ops with
  | [] => True
  | o :: rest =>
      match o with OpSavePost post => keeps_counts s post | _ => True end
      ∧ counts_kept (run_op o s) rest
  end.

(** The user index and the tag index reflect the stored posts: an ID is
    listed under a user (a tag) exactly when a post of that ID is stored and
    has that owner (that tag), and no list names an ID twice. *)
Definition indexed (s : InMemoryPostStore.t) : Prop :=
  (∀ user postID,
     postID ∈ index_get (InMemoryPostStore.userPosts s) user
     ↔ ∃ post, InMemoryPostStore.posts s !! postID = Some post ∧ UserID post = user) ∧
  (∀ tag postID,
     postID ∈ index_get (InMemoryPostStore.tagPosts s) tag
     ↔ ∃ post, InMemoryPostStore.posts s !! postID = Some post ∧ tag ∈ Tags post) ∧
  (∀ user, NoDup (index_get (InMemoryPostStore.userPosts s) user)) ∧
  (∀ tag, NoDup (index_get (InMemoryPostStore.tagPosts s) tag)).

(** A [SavePost] that the indices survive: a post stored under a new ID
    names no tag twice, and a post stored under an existing ID keeps the
    owner. *)
Definition index_safe (s : InMemoryPostStore.t) (post : Post) : Prop :=
  match InMemoryPostStore.posts s !! ID post with
  | Some old => UserID post = UserID old
  | None => NoDup (Tags post)
  end.

(** A run in which every [SavePost] is index-safe for the store it is
    applied to. *)
Fixpoint index_safe_run (s : InMemoryPostStore.t) (ops : list op) : Prop :=
  match ops with
  | [] => True
  | o :: rest =>
      match o with OpSavePost post => index_safe s post | _ => True end
      ∧ index_safe_run (run_op o s) rest
  end.







(** Counts and ledger agree kind by kind on every stored post, and only
    stored posts have a ledger. *)
Definition counts_agree (s : InMemoryPostStore.t) : Prop :=
  (∀ postID, InMemoryPostStore.posts s !! postID = None →
             InMemoryPostStore.reactions s !! postID = None) ∧
  (∀ postID post k, InMemoryPostStore.posts s !! postID = Some post →
     count_of (Reactions post) k = Z.of_nat (kind_rows k (ledger s postID))).

(** No ledger of the store has more than [n] rows. *)
Definition ledgers_within (n : nat) (s : InMemoryPostStore.t) : Prop :=
  ∀ postID, (size (ledger s postID) <= n)%nat.

(** Every count of every stored post lies between 0 and [n]. *)
Definition counts_within (n : Z) (s : InMemoryPostStore.t) : Prop :=
  ∀ postID post k, InMemoryPostStore.posts s !! postID = Some post →
    0 <= count_of (Reactions post) k <= n.

(** The time of the reaction of a user in a ledger (zero without one). *)
Definition reacted_at (rows : gmap string UserReaction) (user : string) : Z :=
  default 0 (ReactedAt <$> rows !! user).

(** The rows that [GetReactedUsers] keeps: every row for a nil
    [reactionType], the rows of that kind otherwise. *)
Definition reacted_with (reactionType : option ReactionType)
    (row : UserReaction) : Prop :=
  match reactionType with
  | Some k => ReactionKind row = k
  | None => True
  end.

#[export] Instance reacted_with_dec (reactionType : option ReactionType)
    (row : UserReaction) : Decision (reacted_with reactionType row).
Proof. destruct reactionType; simpl; apply _. Defined.

(** What a reaction call of a user on a post may change between two stores:
    neither index, no field of a post other than its counts, no ledger of
    another post and no row of another user. *)
Definition reaction_frame (postID userID : string)
    (s s' : InMemoryPostStore.t) : Prop :=
  InMemoryPostStore.userPosts s' = InMemoryPostStore.userPosts s ∧
  InMemoryPostStore.tagPosts s' = InMemoryPostStore.tagPosts s ∧
  (∀ other, with_Reactions None <$> InMemoryPostStore.posts s' !! other
            = with_Reactions None <$> InMemoryPostStore.posts s !! other) ∧
  (∀ other, other ≠ postID →
     InMemoryPostStore.posts s' !! other = InMemoryPostStore.posts s !! other ∧
     ledger s' other = ledger s other) ∧
  (∀ user, user ≠ userID → ledger s' postID !! user = ledger s postID !! user).

(** A post has the visibility that the filter asks for, if it asks for one,
    and was created strictly inside the time range of the filter, if it has
    one. *)
Definition in_window (filter : PostFilter) (post : Post) : Prop :=
  (FilterVisibility filter = "" ∨ Visibility post = FilterVisibility filter) ∧
  match FilterTimeRange filter with
  | Some tr => Start tr < CreatedAt post < End_ tr
  | None => True
  end.

(** What the user and tag fields of a filter select among the posts of a
    store whose indices reflect its posts.  Without tags: the posts of the
    user, and every post for an empty user.  With tags: the posts that carry
    the first tag, whoever owns them, and the posts of the user that carry
    one of the later tags. *)
Definition selected (filter : PostFilter) (post : Post) : Prop :=
  match FilterTags filter with
  | [] => FilterUserID filter = "" ∨ UserID post = FilterUserID filter
  | first :: later =>
      first ∈ Tags post ∨
      ((∃ tag, tag ∈ later ∧ tag ∈ Tags post) ∧
       FilterUserID filter ≠ "" ∧ UserID post = FilterUserID filter)
  end.

(** A candidate map that holds no [false]. *)
Definition only_true (m : gmap string bool) : Prop :=
  ∀ k b, m !! k = Some b → b = true.

(** The posts of a store whose visibility is "public". *)
Definition stored_public (s : InMemoryPostStore.t) : list Post :=
  filter (λ p, Visibility p = "public") (snd <$> map_to_list (InMemoryPostStore.posts s)).

(** * Properties *)

(** ** Integer arithmetic *)

Lemma int_wrap_range z : int_range (int_wrap z).
Proof.
  unfold int_range, int_wrap, min_int, max_int.
  pose proof (Z.mod_pos_bound (z + 2 ^ 63) (2 ^ 64)). lia.
Qed.

Lemma int_wrap_id z : int_range z → int_wrap z = z.
Proof.
  unfold int_range, int_wrap, min_int, max_int. intros Hz.
  rewrite Z.mod_small by lia. lia.
Qed.

Lemma int_wrap_add_l a b : int_wrap (int_wrap a + b) = int_wrap (a + b).
Proof.
  unfold int_wrap.
  replace ((a + 2 ^ 63) mod 2 ^ 64 - 2 ^ 63 + b + 2 ^ 63)
    with ((a + 2 ^ 63) mod 2 ^ 64 + b) by lia.
  rewrite Zplus_mod_idemp_l. do 2 f_equal. lia.
Qed.

Lemma int_add_small a b : int_range (a + b) → int_add a b = a + b.
Proof. apply int_wrap_id. Qed.

Lemma int_sub_small a b : int_range (a - b) → int_sub a b = a - b.
Proof. apply int_wrap_id. Qed.

(** ** The computing runtime meets the contract *)

Section InsertionSort.
Context {A : Type} (less : A → A → bool).
Import RuntimeModel.

Lemma sink_perm x l : sink less x l ≡ₚ x :: l.
Proof.
  induction l as [|y l IH]; simpl; [done|].
  destruct (less x y); [|done].
  rewrite IH. apply Permutation_swap.
Qed.

Lemma insertion_sort_perm l : insertion_sort less l ≡ₚ l.
Proof.
  unfold insertion_sort. rewrite reverse_Permutation.
  assert (∀ acc, foldl (λ p x, sink less x p) acc l ≡ₚ acc ++ l) as Hgen.
  { induction l as [|x l IH]; intros acc; simpl.
    - by rewrite app_nil_r.
    - rewrite IH, sink_perm. simpl. apply Permutation_middle. }
  apply (Hgen []).
Qed.

(** In the reversed prefix a neighbour [y] followed by [z] means that [z]
    stands before [y] in the slice. *)
Lemma sink_sorted x l :
  Sorted (flip (in_order less)) l → Sorted (flip (in_order less)) (sink less x l).
Proof.
  induction l as [|y l IH]; intros Hs; simpl.
  - repeat constructor.
  - destruct (less x y) eqn:Hxy.
    + apply Sorted_inv in Hs as [Hs Hhd]. constructor; [by apply IH|].
      destruct l as [|z l]; simpl.
      * constructor. right. done.
      * destruct (less x z); constructor.
        -- by apply HdRel_inv in Hhd.
        -- right. done.
    + constructor; [done|]. constructor. left. done.
Qed.

Lemma in_order_trans : less_transitive less → Transitive (in_order less).
Proof.
  intros [Ht Hf] x y z [Hyx|Hxy] [Hzy|Hyz]; unfold in_order.
  - left. by apply (Hf z y x).
  - left. destruct (less z x) eqn:E; [|done].
    rewrite (Ht y z x Hyz E) in Hyx. done.
  - left. destruct (less z x) eqn:E; [|done].
    rewrite (Ht z x y E Hxy) in Hzy. done.
  - right. by apply (Ht x y z).
Qed.

Lemma insertion_sort_sorted l :
  less_transitive less → StronglySorted (in_order less) (insertion_sort less l).
Proof.
  intros Htr. pose proof (in_order_trans Htr) as Htrans.
  assert (∀ acc, Sorted (flip (in_order less)) acc →
                 Sorted (flip (in_order less)) (foldl (λ p x, sink less x p) acc l))
    as Hgen.
  { induction l as [|x l IH]; intros acc Hacc; simpl; [done|].
    apply IH. by apply sink_sorted. }
  specialize (Hgen [] (Sorted_nil _)).
  unfold insertion_sort.
  assert (Transitive (flip (in_order less))) as Hflip.
  { intros x y z Hxy Hyz. unfold flip in *. by transitivity y. }
  apply Sorted_StronglySorted in Hgen; [|done].
  induction Hgen as [|x l' Hl IH Hall]; [constructor|].
  rewrite reverse_cons.
  apply StronglySorted_app. split_and!; [|done|repeat constructor].
  intros a b Ha Hb. apply list_elem_of_singleton in Hb as ->.
  rewrite elem_of_reverse in Ha.
  rewrite Forall_forall in Hall. exact (Hall a Ha).
Qed.

End InsertionSort.

(** The runtime of the examples: stdpp's enumeration order and the
    insertion sort. *)
#[export] Instance model_runtime : GoRuntime := {
  map_range K _ _ V m := map_to_list m;
  map_range_perm K _ _ V m := reflexivity _;
  sort_Slice A less l := RuntimeModel.insertion_sort less l;
  sort_Slice_perm A less l := insertion_sort_perm less l;
  sort_Slice_sorted A less l := insertion_sort_sorted less l
}.

Import InMemoryPostStore Fixtures.

(** ** Rejected reactions *)

(** C6.  In any store, for any user and any reaction kind that is not one of
    the kinds 1 to 6: on an existing post [SaveReaction] returns
    [ErrInvalidReaction] and the store after the call is the store before it
    (so the counts of the post and the ledger are unchanged); when the post
    does not exist it returns [ErrPostNotFound] instead, again without
    touching the store. *)
Theorem SaveReaction_invalid_kind
    (now : Z) (postID userID : string) (kind : ReactionType) (s : t) :
  ¬ (1 <= kind <= 6) →
  (is_Some (posts s !! postID) →
     SaveReaction now postID userID kind s = (s, Some ErrInvalidReaction)) ∧
  (posts s !! postID = None →
     SaveReaction now postID userID kind s = (s, Some ErrPostNotFound)).
Proof.
  intros Hkind. unfold SaveReaction. split.
  - intros [post ->].
    rewrite bool_decide_eq_true_2; [done|].
    unfold ReactionNone, ReactionAngry. lia.
  - intros ->. done.
Qed.

Lemma SaveReaction_invalid_kind_witness :
  ¬ (1 <= 100 <= 6) ∧
  SaveReaction 7 "p1" "u3" 100 (saved [sample_post "p1" "u1" ["test"] 1])
  = (saved [sample_post "p1" "u1" ["test"] 1], Some ErrInvalidReaction).
Proof.
  split; [lia|].
  apply (SaveReaction_invalid_kind 7 "p1" "u3" 100); [lia|].
  vm_compute. eexists. reflexivity.
Defined.

(** The kind test is exactly [ReactionLike .. ReactionAngry]: a valid kind
    on an existing post is never refused. *)
Lemma SaveReaction_valid_kind
    (now : Z) (postID userID : string) (kind : ReactionType) (s : t) :
  1 <= kind <= 6 → is_Some (posts s !! postID) →
  (SaveReaction now postID userID kind s).2 = None.
Proof.
  intros Hkind [post Hpost]. unfold SaveReaction. rewrite Hpost.
  rewrite bool_decide_eq_false_2
    by (unfold ReactionNone, ReactionAngry; lia).
  destruct (default ∅ (reactions s !! postID) !! userID) as [r|]; [|done].
  by destruct (decide _).
Qed.

(** ** Deleting a post *)

Lemma DeletePost_missing (postID userID : string) (s : t) :
  posts s !! postID = None →
  DeletePost postID userID s = (s, Some ErrPostNotFound).
Proof. intros Hnone. unfold DeletePost. by rewrite Hnone. Qed.

Lemma DeletePost_not_owner (postID userID : string) (post : Post) (s : t) :
  posts s !! postID = Some post → UserID post ≠ userID →
  DeletePost postID userID s = (s, Some ErrPermissionDenied) ∧
  GetPost postID s = Ok post.
Proof.
  intros Hpost Hne. unfold DeletePost, GetPost. rewrite Hpost.
  by rewrite decide_False.
Qed.

Lemma DeletePost_owner (postID : string) (post : Post) (s : t) :
  posts s !! postID = Some post →
  ∃ s', DeletePost postID (UserID post) s = (s', None) ∧
        GetPost postID s' = Fail ErrPostNotFound ∧
        reactions s' !! postID = None ∧
        (∀ other, other ≠ postID →
           posts s' !! other = posts s !! other ∧
           reactions s' !! other = reactions s !! other).
Proof.
  intros Hpost. unfold DeletePost, GetPost. rewrite Hpost.
  rewrite decide_True by done. eexists. split; [done|]. simpl.
  rewrite !lookup_delete_eq. split_and!; [done..|].
  intros other Hne. by rewrite !lookup_delete_ne.
Qed.

(** C8, at the inputs where the code departs from it.  (1) [SavePost]
    stores "p1" for "u1" and then again for "u2"; [DeletePost] by the owner
    "u2" succeeds, the post, its ledger and its tag entry are gone, yet the
    user index still lists "p1" under "u1".  (2) When "p1" is then created
    anew for "u1", the user index lists it twice under "u1"; [DeletePost]
    by the owner "u1" succeeds and removes one of the two entries only.
    (3) A post created with the tags "test" and "golang" and updated, through
    the object the caller holds, to the tag "test" alone: [DeletePost] by the
    owner succeeds and the tag index still lists the post under "golang". *)
Theorem DeletePost_leaves_index_entries :
  (let s := run [OpSavePost (sample_post "p1" "u1" ["go"] 1);
                 OpSavePost (sample_post "p1" "u2" ["go"] 2)] in
   let s' := (DeletePost "p1" "u2" s).1 in
   UserID <$> posts s !! "p1" = Some "u2" ∧
   (DeletePost "p1" "u2" s).2 = None ∧
   GetPost "p1" s' = Fail ErrPostNotFound ∧
   reactions s' !! "p1" = None ∧
   index_get (tagPosts s') "go" = [] ∧
   index_get (userPosts s') "u1" = ["p1"]) ∧
  (let s := run [OpSavePost (sample_post "p1" "u1" ["go"] 1);
                 OpSavePost (sample_post "p1" "u2" ["go"] 2);
                 OpDeletePost "p1" "u2";
                 OpSavePost (sample_post "p1" "u1" ["go"] 3)] in
   let s' := (DeletePost "p1" "u1" s).1 in
   UserID <$> posts s !! "p1" = Some "u1" ∧
   index_get (userPosts s) "u1" = ["p1"; "p1"] ∧
   (DeletePost "p1" "u1" s).2 = None ∧
   GetPost "p1" s' = Fail ErrPostNotFound ∧
   index_get (userPosts s') "u1" = ["p1"]) ∧
  (let s := created_then_retagged.1 in
   let s' := (DeletePost "id1" "user1" s).1 in
   (UserID <$> posts s !! "id1" = Some "user1" ∧
    Tags <$> posts s !! "id1" = Some ["test"]) ∧
   (DeletePost "id1" "user1" s).2 = None ∧
   GetPost "id1" s' = Fail ErrPostNotFound ∧
   index_get (userPosts s') "user1" = [] ∧
   index_get (tagPosts s') "test" = [] ∧
   index_get (tagPosts s') "golang" = ["id1"]).
Proof. vm_compute. done. Qed.

(** ** The indices after [SavePost] *)

(** C2, at the inputs where the code departs from it.  (1) A new post whose
    tag list names "go" twice is entered twice in the index of "go".
    (2) Saving an existing post under another owner leaves the user index as
    it was: the post is listed under the old owner, whom it no longer
    belongs to, and not under the new one.  (3) After the new owner deletes
    it, the index still lists a post that does not exist.  (4) A post
    created with the tags "test" and "golang" and updated, through the
    object the caller holds, to the tag "test" alone stays listed under
    "golang": the old post that [SavePost] reads from the store is the
    object it is given, so the dropped tag is never looked at. *)
Theorem SavePost_breaks_index_invariant :
  (let s := run [OpSavePost (sample_post "p1" "u1" ["go"; "go"] 1)] in
   index_get (tagPosts s) "go" = ["p1"; "p1"] ∧
   ¬ NoDup (index_get (tagPosts s) "go")) ∧
  (let s := run [OpSavePost (sample_post "p1" "u1" [] 1);
                 OpSavePost (sample_post "p1" "u2" [] 2)] in
   UserID <$> posts s !! "p1" = Some "u2" ∧
   "p1" ∈ index_get (userPosts s) "u1" ∧
   "p1" ∉ index_get (userPosts s) "u2") ∧
  (let s := run [OpSavePost (sample_post "p1" "u1" [] 1);
                 OpSavePost (sample_post "p1" "u2" [] 2);
                 OpDeletePost "p1" "u2"] in
   posts s !! "p1" = None ∧ "p1" ∈ index_get (userPosts s) "u1") ∧
  (let s := created_then_retagged.1 in
   created_then_retagged.2 = None ∧
   Tags <$> posts s !! "id1" = Some ["test"] ∧
   "id1" ∈ index_get (tagPosts s) "golang").
Proof.
  vm_compute. split_and!; try done.
  - intros Hnd. apply NoDup_cons in Hnd as [Hnot _].
    apply Hnot, list_elem_of_here.
  - apply list_elem_of_here.
  - apply not_elem_of_nil.
  - apply list_elem_of_here.
  - apply list_elem_of_here.
Qed.

(** ** Candidate selection in [ListPosts] *)

Section Candidates.
Context `{GoRuntime}.

Lemma map_range_singleton `{Countable K} {V : Type} (k : K) (v : V) :
  map_range ({[k := v]} : gmap K V) = [(k, v)].
Proof.
  apply Permutation_singleton_r.
  by rewrite map_range_perm, map_to_list_singleton.
Qed.

Lemma map_range_empty `{Countable K} {V : Type} :
  map_range (∅ : gmap K V) = [].
Proof.
  apply Permutation_nil_r. by rewrite map_range_perm, map_to_list_empty.
Qed.

(** C1, at the inputs where the code departs from it, whatever the
    iteration order.  The store holds one post, "p1" of user "u1", tagged
    "a" only.  (1) A filter on the two tags "a" and "b" returns "p1", which
    does not carry "b": for the first tag every indexed post is taken, and
    for a later tag a post is tested against the user candidates, which
    without a user filter are the nil map.  (2) A filter on user "u2" and
    tag "a" returns "p1", which belongs to "u1": the posts of the first
    tag are taken without looking at the user candidates. *)
Theorem ListPosts_tag_filter_not_conjunctive :
  let p1 := sample_post "p1" "u1" ["a"] 1 in
  let s := saved [p1] in
  (ListPosts (by_tags ["a"; "b"]) s = Some [p1] ∧ "b" ∉ Tags p1) ∧
  (ListPosts (by_user_and_tags "u2" ["a"]) s = Some [p1] ∧ UserID p1 ≠ "u2").
Proof.
  intros p1 s.
  assert (posts s !! "p1" = Some p1) as Hp1 by (vm_compute; reflexivity).
  assert (candidateIDs (by_tags ["a"; "b"]) s = Some {["p1" := true]}) as Hc1
    by (vm_compute; reflexivity).
  assert (candidateIDs (by_user_and_tags "u2" ["a"]) s = Some {["p1" := true]})
    as Hc2 by (vm_compute; reflexivity).
  split; split.
  - unfold ListPosts, sorted_results, collect.
    rewrite Hc1, map_range_singleton. simpl. rewrite Hp1. reflexivity.
  - simpl. rewrite list_elem_of_singleton. discriminate.
  - unfold ListPosts, sorted_results, collect.
    rewrite Hc2, map_range_singleton. simpl. rewrite Hp1. reflexivity.
  - simpl. discriminate.
Qed.

(** The parts of the selection that do follow the description: no user
    and no tag gives the nil map, and [collect] then walks all posts; a
    user alone gives exactly the index entry of that user. *)
Lemma candidateIDs_no_filter (filter : PostFilter) (s : t) :
  FilterUserID filter = "" → FilterTags filter = [] →
  candidateIDs filter s = None.
Proof.
  intros Hu Ht. unfold candidateIDs. rewrite Hu, Ht. reflexivity.
Qed.

Lemma mark_all_candidate (ids : list string) (acc : gmap string bool) (pid : string) :
  candidate (Some (foldl (λ acc pid, <[pid := true]> acc) acc ids)) pid = true
  ↔ pid ∈ ids ∨ candidate (Some acc) pid = true.
Proof.
  revert acc. induction ids as [|x ids IH]; intros acc; cbn [foldl].
  - rewrite elem_of_nil. tauto.
  - rewrite IH, elem_of_cons. unfold candidate.
    destruct (decide (pid = x)) as [->|Hne].
    + rewrite lookup_insert_eq. simpl. tauto.
    + rewrite lookup_insert_ne by done. tauto.
Qed.

Lemma candidateIDs_user_only (filter : PostFilter) (s : t) :
  FilterUserID filter ≠ "" → FilterTags filter = [] →
  ∃ c, candidateIDs filter s = Some c ∧
       ∀ pid, candidate (Some c) pid = true
              ↔ pid ∈ index_get (userPosts s) (FilterUserID filter).
Proof.
  intros Hu Ht. unfold candidateIDs. rewrite Ht.
  rewrite decide_False by done. cbn [length bool_decide].
  rewrite bool_decide_eq_false_2 by (simpl; lia).
  eexists. split; [reflexivity|].
  intros pid. rewrite mark_all_candidate. unfold candidate.
  rewrite lookup_empty. simpl. split; [intros [?|?]; [done|discriminate]|tauto].
Qed.

End Candidates.

(** ** Pagination *)

Lemma slice_expr_ok {A : Type} (l : list A) (lo hi : Z) :
  0 <= lo → lo <= hi → hi <= Z.of_nat (length l) →
  slice_expr l lo hi = Some (take (Z.to_nat (hi - lo)) (drop (Z.to_nat lo) l)).
Proof. intros. unfold slice_expr. by rewrite bool_decide_eq_true_2. Qed.

Lemma paginate_window {A : Type} (limit offset : Z) (result : list A) :
  limit > 0 → 0 <= offset → offset + limit <= max_int →
  paginate limit offset result
  = Some (take (Z.to_nat limit) (drop (Z.to_nat offset) result)).
Proof.
  intros Hlimit Hoffset Hsum. unfold paginate.
  rewrite bool_decide_eq_true_2 by done.
  rewrite int_add_small by (unfold int_range, min_int, max_int in *; lia).
  destruct (bool_decide_reflect (offset < Z.of_nat (length result))) as [Hlt|Hge].
  - case_bool_decide as Hend.
    + rewrite slice_expr_ok by lia. f_equal.
      rewrite !take_ge; [done| |]; rewrite length_drop; lia.
    + rewrite slice_expr_ok by lia. do 2 f_equal. lia.
  - rewrite drop_ge by lia. by rewrite take_nil.
Qed.

Lemma paginate_past_end {A : Type} (limit offset : Z) (result : list A) :
  limit > 0 → Z.of_nat (length result) <= offset →
  paginate limit offset result = Some [].
Proof.
  intros Hlimit Hoffset. unfold paginate.
  rewrite bool_decide_eq_true_2 by done.
  by rewrite (bool_decide_eq_false_2 (offset < _)) by lia.
Qed.

Lemma paginate_no_limit {A : Type} (limit offset : Z) (result : list A) :
  limit <= 0 → paginate limit offset result = Some result.
Proof.
  intros Hlimit. unfold paginate. by rewrite bool_decide_eq_false_2 by lia.
Qed.

Lemma take_drop_disjoint {A : Type} (l : list A) (n m k : nat) (x : A) :
  NoDup l → (n <= k)%nat → x ∈ take n l → x ∉ take m (drop k l).
Proof.
  intros Hnd Hnk Hx1 Hx2.
  rewrite <- (take_drop k l) in Hnd.
  apply NoDup_app in Hnd as (_ & Hdisj & _).
  apply (Hdisj x).
  - apply elem_of_take in Hx1 as (i & Hi & Hlt).
    apply list_elem_of_lookup. exists i. rewrite lookup_take_lt by lia. done.
  - apply elem_of_take in Hx2 as (i & Hi & _).
    apply list_elem_of_lookup. by exists i.
Qed.

Lemma pages_disjoint (result : list Post) (first second : list Post) :
  NoDup (ID <$> result) →
  paginate 3 0 result = Some first → paginate 3 3 result = Some second →
  ∀ p q, p ∈ first → q ∈ second → ID p ≠ ID q.
Proof.
  intros Hnd Hfirst Hsecond p q Hp Hq Heq.
  rewrite paginate_window in Hfirst by (unfold max_int; lia).
  rewrite paginate_window in Hsecond by (unfold max_int; lia).
  injection Hfirst as <-. injection Hsecond as <-.
  apply (list_elem_of_fmap_2 ID) in Hp, Hq.
  rewrite fmap_take in Hp. rewrite fmap_take, fmap_drop in Hq.
  rewrite Heq in Hp. rewrite fmap_drop in Hp. simpl in Hp. 
  by eapply (take_drop_disjoint (ID <$> result) 3 3 3).
Qed.

Section Pagination.
Context `{GoRuntime}.

(** C5, as amended.  [ListPosts] paginates the sorted result list.  With
    a positive limit and an offset that is not negative (and [offset +
    limit] within [int]) it returns the [limit] posts that follow the
    first [offset] ones; with a positive limit and an offset at or beyond
    the size of the list it returns the empty list; with a limit of zero
    or less it returns the whole list and the offset is not looked at.
    Of one result list of 8 posts with distinct IDs, the page [limit=3,
    offset=3] has 3 posts and shares no post with the page [limit=3,
    offset=0]. *)
Theorem ListPosts_pagination (filter : PostFilter) (s : t) :
  let result := sorted_results filter s in
  let limit := FilterLimit filter in
  let offset := FilterOffset filter in
  (limit > 0 → 0 <= offset → offset + limit <= max_int →
     ListPosts filter s
     = Some (take (Z.to_nat limit) (drop (Z.to_nat offset) result))) ∧
  (limit > 0 → Z.of_nat (length result) <= offset →
     ListPosts filter s = Some []) ∧
  (limit <= 0 → ListPosts filter s = Some result) ∧
  (NoDup (ID <$> result) → length result = 8%nat →
     ∃ first second,
       paginate 3 0 result = Some first ∧
       paginate 3 3 result = Some second ∧
       length first = 3%nat ∧ length second = 3%nat ∧
       ∀ p q, p ∈ first → q ∈ second → ID p ≠ ID q).
Proof.
  intros result limit offset. unfold ListPosts. split_and!.
  - apply paginate_window.
  - apply paginate_past_end.
  - apply paginate_no_limit.
  - intros Hnd Hlen.
    exists (take 3 (drop 0 result)), (take 3 (drop 3 result)).
    assert (paginate 3 0 result = Some (take 3 (drop 0 result))) as H0
      by (rewrite paginate_window; [done|lia|lia|unfold max_int; lia]).
    assert (paginate 3 3 result = Some (take 3 (drop 3 result))) as H3
      by (rewrite paginate_window; [done|lia|lia|unfold max_int; lia]).
    split_and!; [done|done| | |].
    + rewrite length_take, length_drop. lia.
    + rewrite length_take, length_drop. lia.
    + by apply (pages_disjoint result).
Qed.

End Pagination.

Lemma ListPosts_pagination_witness :
  let result := sorted_results (page 3 3) eight_posts in
  (3 > 0 ∧ 0 <= 3 ∧ 3 + 3 <= max_int ∧
   ListPosts (page 3 3) eight_posts = Some (take 3 (drop 3 result))) ∧
  (NoDup (ID <$> result) ∧ length result = 8%nat ∧
   ∃ first second,
     paginate 3 0 result = Some first ∧ paginate 3 3 result = Some second ∧
     length first = 3%nat ∧ length second = 3%nat ∧
     ∀ p q, p ∈ first → q ∈ second → ID p ≠ ID q).
Proof.
  intros result.
  destruct (ListPosts_pagination (page 3 3) eight_posts)
    as (Hwindow & _ & _ & Hpages).
  assert (NoDup (ID <$> result)) as Hnd
    by (apply (bool_decide_unpack _); vm_compute; exact I).
  assert (length result = 8%nat) as Hlen by (vm_compute; reflexivity).
  split.
  - split_and!; [lia|lia|unfold max_int; lia|].
    apply Hwindow; simpl; [lia|lia|unfold max_int; lia].
  - split_and!; [exact Hnd|exact Hlen|]. exact (Hpages Hnd Hlen).
Defined.

(** C5 as it was stated fails where the limit is not positive: the offset
    is then ignored.  On three stored posts, limit 0 and offset 1 return all
    three and not the two that remain after the first; limit 0 and offset 3,
    which is the size of the list, return all three and not the empty
    list. *)
Lemma ListPosts_offset_needs_limit :
  let s := saved [sample_post "p1" "u1" [] 1; sample_post "p2" "u1" [] 2;
                  sample_post "p3" "u1" [] 3] in
  length (sorted_results (page 0 1) s) = 3%nat ∧
  ListPosts (page 0 1) s = Some (sorted_results (page 0 1) s) ∧
  ListPosts (page 0 1) s ≠ Some (drop 1 (sorted_results (page 0 1) s)) ∧
  ListPosts (page 0 3) s ≠ Some [].
Proof. vm_compute. split_and!; [done|done|discriminate|discriminate]. Qed.

(** The slice expression of the pagination block panics on a negative
    offset, and when [offset + limit] wraps around below the offset. *)
Example paginate_negative_offset : paginate 2 (-1) ["p1"; "p2"] = None.
Proof. reflexivity. Qed.

Example paginate_wrapped_end : paginate max_int 1 ["p1"; "p2"] = None.
Proof. reflexivity. Qed.

(** ** The manager *)

Section ManagerFacts.
Context {S : Type} `{PostStore S}.

(** C10.  Over any store: for a post whose [UserID] is empty [CreatePost]
    returns an error, and the store and the post are as they were (no store
    method is reached).  For a post with a [UserID], the post that is handed
    to [SavePost] has the generated ID only if the given ID was empty (else
    the given ID), has [CreatedAt] and [UpdatedAt] equal to the current
    time, has an empty [Reactions] map where the given one was nil (else the
    given map), and is otherwise the given post; when [SavePost] succeeds
    [CreatePost] returns the ID of that post, and when it fails, its
    error. *)
Theorem CreatePost_spec (uuid : string) (now : Z) (post : Post) (st : S) :
  (UserID post = "" →
     ∃ e, PostManagerImpl.CreatePost uuid now post st = (st, post, Fail e)) ∧
  (UserID post ≠ "" →
     let created :=
       {| ID := if decide (ID post = "") then uuid else ID post;
          UserID := UserID post; Content := Content post;
          PostMedia := PostMedia post; Tags := Tags post;
          CreatedAt := now; UpdatedAt := now;
          Reactions := Some (default ∅ (Reactions post));
          Comments := Comments post; Shares := Shares post;
          Visibility := Visibility post |} in
     PostManagerImpl.CreatePost uuid now post st
     = match store_SavePost created st with
       | (st', None) => (st', created, Ok (ID created))
       | (st', Some err) => (st', created, Fail err)
       end).
Proof.
  unfold PostManagerImpl.CreatePost. split.
  - intros Hu. rewrite decide_True by done. by eexists.
  - intros Hu. rewrite decide_False by done.
    destruct post as [id user content media tags created updated rs cs sh vis].
    simpl in *.
    destruct (decide (id = "")) as [->|Hid], rs as [c|]; simpl;
      unfold with_UpdatedAt, with_CreatedAt, with_ID, with_Reactions; simpl;
      by destruct (store_SavePost _ st) as [st' [err|]].
Qed.

End ManagerFacts.

Lemma CreatePost_spec_witness :
  let post := with_Reactions None (with_ID "" (sample_post "" "user1" ["test"] 0)) in
  let created := with_Reactions (Some ∅) (sample_post "generated" "user1" ["test"] 42) in
  UserID post ≠ "" ∧
  PostManagerImpl.CreatePost "generated" 42 post NewInMemoryPostStore
  = ((SavePost created NewInMemoryPostStore).1, created, Ok "generated").
Proof.
  intros post created. split; [discriminate|].
  destruct (CreatePost_spec (S := t) "generated" 42 post NewInMemoryPostStore)
    as [_ Hcreate].
  rewrite Hcreate by discriminate. reflexivity.
Defined.

(** With the in-memory store, whose [SavePost] always returns nil, a post
    with a user is created and can be read back. *)
Lemma CreatePost_in_memory `{GoRuntime} (uuid : string) (now : Z) (post : Post) (s : t) :
  UserID post ≠ "" →
  ∃ s' created,
    PostManagerImpl.CreatePost uuid now post s = (s', created, Ok (ID created)) ∧
    PostManagerImpl.GetPost (ID created) s' = Ok created.
Proof.
  intros Hu. unfold PostManagerImpl.CreatePost, PostManagerImpl.GetPost.
  rewrite decide_False by done.
  set (created := match Reactions _ with Some _ => _ | None => _ end).
  unfold store_SavePost, store_GetPost. simpl. unfold SavePost, GetPost.
  destruct (posts s !! ID created) as [old|]; simpl;
    (eexists _, created; split; [reflexivity|]); simpl;
    by rewrite lookup_insert_eq.
Qed.

(** ** Sums of reaction counts *)

#[local] Instance sum_counts_proper : Proper ((≡ₚ) ==> (=)) sum_counts.
Proof.
  intros l1 l2 Hperm. unfold sum_counts.
  induction Hperm; simpl; lia.
Qed.

Lemma foldl_int_add (l : list (ReactionType * Z)) (a : Z) :
  foldl (λ sum kv, int_add sum kv.2) (int_wrap a) l = int_wrap (a + sum_counts l).
Proof.
  revert a. induction l as [|[k c] l IH]; intros a; simpl.
  - f_equal. lia.
  - unfold int_add at 2. rewrite int_wrap_add_l, IH. f_equal. simpl. lia.
Qed.

Section Sums.
Context `{GoRuntime}.

(** [sumReactions] is the sum of all per-kind counts, wrapped to [int]. *)
Lemma sumReactions_total (reactions : option (gmap ReactionType Z)) :
  sumReactions reactions = int_wrap (total_reactions reactions).
Proof.
  destruct reactions as [m|]; simpl; [|reflexivity].
  change 0 with (int_wrap 0) at 1.
  rewrite foldl_int_add, map_range_perm. reflexivity.
Qed.

Lemma sumReactions_exact (reactions : option (gmap ReactionType Z)) :
  int_range (total_reactions reactions) →
  sumReactions reactions = total_reactions reactions.
Proof. intros Hr. by rewrite sumReactions_total, int_wrap_id. Qed.

(** The engagement score is reactions plus comments plus shares, wrapped
    to [int]. *)
Lemma engagement_total (p : Post) :
  engagement p = int_wrap (total_reactions (Reactions p) + Comments p + Shares p).
Proof.
  unfold engagement, int_add. rewrite sumReactions_total.
  rewrite (int_wrap_add_l (total_reactions (Reactions p)) (Comments p)).
  apply int_wrap_add_l.
Qed.

End Sums.

(** ** Sorting by a key *)

Lemma StronglySorted_weaken {A : Type} (R R' : A → A → Prop) (l : list A) :
  (∀ x y, R x y → R' x y) → StronglySorted R l → StronglySorted R' l.
Proof.
  intros Himpl Hs. induction Hs as [|x l Hs IH Hall]; constructor; [done|].
  eapply Forall_impl; [exact Hall|]. intros y. apply Himpl.
Qed.

Lemma StronglySorted_weaken_elem_of {A : Type} (R R' : A → A → Prop) (l : list A) :
  StronglySorted R l →
  (∀ x y, x ∈ l → y ∈ l → R x y → R' x y) → StronglySorted R' l.
Proof.
  induction 1 as [|x l Hs IH Hall]; intros Himp; [constructor|].
  constructor.
  - apply IH. intros a b Ha Hb. apply Himp; by apply list_elem_of_further.
  - apply Forall_forall. intros y Hy. apply Himp.
    + apply list_elem_of_here.
    + by apply list_elem_of_further.
    + by apply (proj1 (Forall_forall _ _) Hall).
Qed.

Lemma less_by_key_transitive {A : Type} (key : A → Z) :
  less_transitive (λ a b, bool_decide (key a < key b)).
Proof.
  split; intros x y z H1 H2.
  - apply bool_decide_eq_true in H1, H2. apply bool_decide_eq_true. lia.
  - apply bool_decide_eq_false in H1, H2. apply bool_decide_eq_false. lia.
Qed.

Lemma not_less_by_key_transitive {A : Type} (key : A → Z) :
  less_transitive (λ a b, negb (bool_decide (key a < key b))).
Proof.
  split; intros x y z H1 H2.
  - apply negb_true_iff, bool_decide_eq_false in H1, H2.
    apply negb_true_iff, bool_decide_eq_false. lia.
  - apply negb_false_iff, bool_decide_eq_true in H1, H2.
    apply negb_false_iff, bool_decide_eq_true. lia.
Qed.

Lemma greater_by_key_transitive {A : Type} (key : A → Z) :
  less_transitive (λ a b, bool_decide (key a > key b)).
Proof.
  split; intros x y z H1 H2.
  - apply bool_decide_eq_true in H1, H2. apply bool_decide_eq_true. lia.
  - apply bool_decide_eq_false in H1, H2. apply bool_decide_eq_false. lia.
Qed.

Section SortByKey.
Context `{GoRuntime} {A : Type} (key : A → Z) (less : A → A → bool).

Lemma less_transitive_ext (less' : A → A → bool) :
  (∀ a b, less a b = less' a b) → less_transitive less' → less_transitive less.
Proof.
  intros Hext [Ht Hf]. split; intros x y z; rewrite !Hext; [apply Ht|apply Hf].
Qed.

Lemma sort_Slice_ascending (l : list A) :
  (∀ a b, less a b = bool_decide (key a < key b)) →
  StronglySorted (λ a b, key a <= key b) (sort_Slice less l).
Proof.
  intros Hless.
  eapply StronglySorted_weaken; [|apply sort_Slice_sorted].
  - intros x y [Hyx|Hxy].
    + rewrite Hless in Hyx. apply bool_decide_eq_false in Hyx. lia.
    + rewrite Hless in Hxy. apply bool_decide_eq_true in Hxy. lia.
  - eapply less_transitive_ext; [exact Hless|apply less_by_key_transitive].
Qed.

Lemma sort_Slice_inverted (l : list A) :
  (∀ a b, less a b = negb (bool_decide (key a < key b))) →
  StronglySorted (λ a b, key a >= key b) (sort_Slice less l).
Proof.
  intros Hless.
  eapply StronglySorted_weaken; [|apply sort_Slice_sorted].
  - intros x y [Hyx|Hxy].
    + rewrite Hless in Hyx. apply negb_false_iff, bool_decide_eq_true in Hyx. lia.
    + rewrite Hless in Hxy. apply negb_true_iff, bool_decide_eq_false in Hxy. lia.
  - eapply less_transitive_ext; [exact Hless|apply not_less_by_key_transitive].
Qed.

Lemma sort_Slice_descending (l : list A) :
  (∀ a b, less a b = bool_decide (key a > key b)) →
  StronglySorted (λ a b, key a >= key b) (sort_Slice less l).
Proof.
  intros Hless.
  eapply StronglySorted_weaken; [|apply sort_Slice_sorted].
  - intros x y [Hyx|Hxy].
    + rewrite Hless in Hyx. apply bool_decide_eq_false in Hyx. lia.
    + rewrite Hless in Hxy. apply bool_decide_eq_true in Hxy. lia.
  - eapply less_transitive_ext; [exact Hless|apply greater_by_key_transitive].
Qed.

End SortByKey.

Lemma StronglySorted_lookup {A : Type} (R : A → A → Prop) (l : list A)
    (i j : nat) (a b : A) :
  StronglySorted R l → l !! i = Some a → l !! j = Some b → (i < j)%nat → R a b.
Proof.
  intros Hs. revert i j. induction Hs as [|x l Hs IH Hall]; intros i j Hi Hj Hlt.
  - by rewrite lookup_nil in Hi.
  - destruct j as [|j]; [lia|]. simpl in Hj. destruct i as [|i]; simpl in Hi.
    + injection Hi as ->. rewrite Forall_forall in Hall.
      apply Hall. by eapply list_elem_of_lookup_2.
    + apply (IH i j); [done|done|lia].
Qed.

Lemma StronglySorted_take {A : Type} (R : A → A → Prop) (l : list A) (n : nat) :
  StronglySorted R l → StronglySorted R (take n l).
Proof.
  intros Hs. rewrite <- (take_drop n l) in Hs.
  by apply StronglySorted_app in Hs as (_ & ? & _).
Qed.

(** ** Trending posts *)

Lemma foldl_snoc_filter {K A : Type} (P : A → Prop) `{∀ x, Decision (P x)}
    (l : list (K * A)) (acc : list A) :
  foldl (λ result kv, if decide (P kv.2) then result ++ [kv.2] else result) acc l
  = acc ++ filter P (l.*2).
Proof.
  revert acc. induction l as [|[k x] l IH]; intros acc; simpl.
  - by rewrite app_nil_r.
  - rewrite IH, filter_cons. simpl.
    destruct (decide (P x)); [|done]. by rewrite <- app_assoc.
Qed.

Lemma eq_reflexive_perm {A : Type} (l1 l2 : list A) : l1 = l2 → l1 ≡ₚ l2.
Proof. by intros ->. Qed.

Section Trending.
Context `{GoRuntime}.

Lemma public_posts_perm (s : t) : public_posts s ≡ₚ stored_public s.
Proof.
  unfold public_posts, stored_public. rewrite <- map_range_perm.
  apply eq_reflexive_perm.
  exact (foldl_snoc_filter (λ p : Post, Visibility p = "public")
                           (map_range (posts s)) []).
Qed.

(** What [GetTrendingPosts] does in [int] arithmetic, on every store: it
    ranks exactly the public posts by the value that the closure computes,
    which is the score reduced to an [int] by wrap-around. *)
Lemma GetTrendingPosts_ranked_by_engagement (limit : Z) (s : t) :
  ∃ ranked,
    ranked ≡ₚ stored_public s ∧
    StronglySorted (λ a b, engagement a >= engagement b) ranked ∧
    (∀ p, engagement p
          = int_wrap (total_reactions (Reactions p) + Comments p + Shares p)) ∧
    GetTrendingPosts limit s
    = (if bool_decide (limit > 0) then take (Z.to_nat limit) ranked else ranked) ∧
    (∀ i j a b,
       GetTrendingPosts limit s !! i = Some a →
       GetTrendingPosts limit s !! j = Some b →
       engagement a > engagement b → (i < j)%nat).
Proof.
  set (ranked := sort_Slice (λ a b, bool_decide (engagement a > engagement b))
                            (public_posts s)).
  assert (StronglySorted (λ a b, engagement a >= engagement b) ranked) as Hsorted
    by (by apply sort_Slice_descending).
  assert (GetTrendingPosts limit s
          = if bool_decide (limit > 0) then take (Z.to_nat limit) ranked else ranked)
    as Hres.
  { unfold GetTrendingPosts. fold ranked.
    destruct (bool_decide_reflect (limit > 0)) as [Hpos|Hneg]; simpl; [|done].
    case_bool_decide as Hlen; [done|]. rewrite take_ge; [done|lia]. }
  exists ranked. split_and!.
  - unfold ranked. by rewrite sort_Slice_perm, public_posts_perm.
  - exact Hsorted.
  - apply engagement_total.
  - exact Hres.
  - intros i j a b Hi Hj Hgt. rewrite Hres in Hi, Hj.
    assert (StronglySorted (λ a b, engagement a >= engagement b)
              (if bool_decide (limit > 0) then take (Z.to_nat limit) ranked
               else ranked)) as Hs
      by (destruct (bool_decide _); [by apply StronglySorted_take|done]).
    destruct (decide (i < j)%nat) as [|Hge]; [done|].
    destruct (decide (i = j)) as [->|Hne].
    + rewrite Hi in Hj. injection Hj as ->. lia.
    + assert (engagement b >= engagement a)
        by (apply (StronglySorted_lookup _ _ j i b a Hs); [done|done|lia]).
      lia.
Qed.

(** C7, as amended.  For any store in which the score of every public post
    (the sum of all its per-kind reaction counts, plus comments, plus shares)
    fits an [int], and for any limit, [GetTrendingPosts] returns a ranking
    of exactly the public posts in descending order of score, cut to the
    first [limit] posts when [limit] is positive and whole when it is zero
    or negative.  In the returned list a post with a larger score always
    stands before one with a smaller score, whatever order the posts were
    created or stored in. *)
Theorem GetTrendingPosts_ranking (limit : Z) (s : t) :
  (∀ p, p ∈ stored_public s → int_range (score p)) →
  ∃ ranked,
    ranked ≡ₚ stored_public s ∧
    StronglySorted (λ a b, score a >= score b) ranked ∧
    GetTrendingPosts limit s
    = (if bool_decide (limit > 0) then take (Z.to_nat limit) ranked else ranked) ∧
    (∀ i j a b,
       GetTrendingPosts limit s !! i = Some a →
       GetTrendingPosts limit s !! j = Some b →
       score a > score b → (i < j)%nat).
Proof.
  intros Hfit.
  destruct (GetTrendingPosts_ranked_by_engagement limit s)
    as (ranked & Hperm & Hsorted & Heng & Hres & Horder).
  assert (∀ p, p ∈ ranked → engagement p = score p) as Hscore.
  { intros p Hin. rewrite Heng. apply int_wrap_id, Hfit. by rewrite <- Hperm. }
  assert (∀ i p, GetTrendingPosts limit s !! i = Some p → p ∈ ranked) as Hin.
  { intros i p Hi. apply list_elem_of_lookup_2 in Hi. rewrite Hres in Hi.
    destruct (bool_decide (limit > 0)); [by apply subseteq_take in Hi|done]. }
  exists ranked. split_and!; [done| |done|].
  - apply (StronglySorted_weaken_elem_of _ _ _ Hsorted).
    intros a b Ha Hb. by rewrite (Hscore a Ha), (Hscore b Hb).
  - intros i j a b Hi Hj Hgt. apply (Horder i j a b Hi Hj).
    by rewrite (Hscore a (Hin i a Hi)), (Hscore b (Hin j b Hj)).
Qed.

End Trending.

Lemma GetTrendingPosts_ranking_witness :
  let s := saved [quiet_post "a" 1; lively_post "b" 2] in
  (∀ p, p ∈ stored_public s → int_range (score p)) ∧
  GetTrendingPosts 0 s !! 0%nat = Some (lively_post "b" 2) ∧
  GetTrendingPosts 0 s !! 1%nat = Some (quiet_post "a" 1) ∧
  score (lively_post "b" 2) = 33 ∧ score (quiet_post "a" 1) = 11 ∧
  (0 < 1)%nat.
Proof.
  intros s.
  assert (∀ p, p ∈ stored_public s → int_range (score p)) as Hfit.
  { intros p Hin.
    assert (p = quiet_post "a" 1 ∨ p = lively_post "b" 2) as [-> | ->].
    { assert (stored_public s ≡ₚ [quiet_post "a" 1; lively_post "b" 2]) as Hpub
        by (apply eq_reflexive_perm; vm_compute; reflexivity).
      rewrite Hpub in Hin. apply elem_of_cons in Hin as [?|Hin]; [by left|].
      apply list_elem_of_singleton in Hin. by right. }
    - vm_compute. split; discriminate.
    - vm_compute. split; discriminate. }
  assert (GetTrendingPosts 0 s !! 0%nat = Some (lively_post "b" 2)) as H0
    by (vm_compute; reflexivity).
  assert (GetTrendingPosts 0 s !! 1%nat = Some (quiet_post "a" 1)) as H1
    by (vm_compute; reflexivity).
  assert (score (lively_post "b" 2) = 33) as Hb by (vm_compute; reflexivity).
  assert (score (quiet_post "a" 1) = 11) as Ha by (vm_compute; reflexivity).
  split_and!; [exact Hfit|exact H0|exact H1|exact Hb|exact Ha|].
  destruct (GetTrendingPosts_ranking 0 s Hfit) as (ranked & _ & _ & _ & Hrank).
  apply (Hrank 0%nat 1%nat _ _ H0 H1). rewrite Hb, Ha. lia.
Defined.

(** C7 as it was stated fails where a score does not fit an [int].  The
    post "big" has the largest [int] as its comments and one share, so its
    score is 2^63, which the addition of the closure wraps around to the
    smallest [int]; the post "small" has score 0.  [GetTrendingPosts]
    returns "small" before "big", although the score of "big" is the
    larger one.  The two values that the closure compares differ, so the
    order does not depend on the sort or on the iteration order. *)
Lemma GetTrendingPosts_wrapped_score :
  let big := engaging_post "big" 1 [] max_int 1 in
  let small := engaging_post "small" 2 [] 0 0 in
  let s := saved [big; small] in
  score big = 2 ^ 63 ∧ score small = 0 ∧ score big > score small ∧
  ¬ int_range (score big) ∧
  engagement big = min_int ∧ engagement small = 0 ∧
  GetTrendingPosts 0 s = [small; big].
Proof.
  intros big small s. split_and!; try (vm_compute; reflexivity).
  vm_compute. intros [_ Hle]. by apply Hle.
Qed.

(** A post that scores 33 comes before one that scores 11, whichever of the
    two was created and saved first. *)
Example GetTrendingPosts_33_above_11 :
  engagement (lively_post "b" 2) = 33 ∧ engagement (quiet_post "a" 1) = 11 ∧
  ID <$> GetTrendingPosts 0 (saved [quiet_post "a" 1; lively_post "b" 2])
    = ["b"; "a"] ∧
  ID <$> GetTrendingPosts 0 (saved [lively_post "b" 1; quiet_post "a" 2])
    = ["b"; "a"] ∧
  ID <$> GetTrendingPosts 1 (saved [quiet_post "a" 1; lively_post "b" 2])
    = ["b"].
Proof. vm_compute. done. Qed.

(** ** Sorting in [ListPosts] *)

Section Sorting.
Context `{GoRuntime}.

(** The closure of [ListPosts] compares the key that the sort field names,
    and inverts the answer for "desc". *)
Lemma sort_less_key (filter : PostFilter) (a b : Post) :
  sort_less filter a b
  = let less := bool_decide (sort_key (FilterSortBy filter) a
                             < sort_key (FilterSortBy filter) b) in
    if decide (FilterSortOrder filter = "desc") then negb less else less.
Proof.
  unfold sort_less, sort_key. cbv zeta.
  repeat (destruct (decide (FilterSortBy filter = _)) as [Heq|?];
          [try (rewrite Heq; simpl); try done|]); try done.
  all: rewrite ?Heq in *; try done.
Qed.

(** C9, as amended.  [InMemoryPostStore.ListPosts] paginates the list of
    the collected posts, which it has sorted as follows.  For an empty
    [SortBy] no sort is applied: the list is the collected posts as they
    were collected.  For any other [SortBy] the list is the collected posts
    sorted by the key that [SortBy] names: created_at, updated_at,
    reactions, comments or shares, and created_at for any other name; in
    ascending order unless [SortOrder] is "desc", and then in descending
    order.  The reactions key is the sum of all per-kind counts in [int]
    arithmetic, which is the sum itself whenever the sum fits an [int].
    [GormPostStore.ListPosts] asks the database for another order: by
    created_at, updated_at, comments or shares when [SortBy] is one of
    these and by created_at otherwise (for "reactions" and for an empty
    [SortBy] too), ascending only when [SortBy] is not empty and
    [SortOrder] is "asc", and descending in every other case. *)
Theorem ListPosts_sorting (filter : PostFilter) (s : t) :
  let key := sort_key (FilterSortBy filter) in
  ListPosts filter s
  = paginate (FilterLimit filter) (FilterOffset filter) (sorted_results filter s) ∧
  (FilterSortBy filter = "" → sorted_results filter s = collect filter s) ∧
  (FilterSortBy filter ≠ "" →
     sorted_results filter s ≡ₚ collect filter s ∧
     (FilterSortOrder filter ≠ "desc" →
        StronglySorted (λ a b, key a <= key b) (sorted_results filter s)) ∧
     (FilterSortOrder filter = "desc" →
        StronglySorted (λ a b, key a >= key b) (sorted_results filter s))) ∧
  (∀ p, sort_key "reactions" p = int_wrap (total_reactions (Reactions p)) ∧
        (int_range (total_reactions (Reactions p)) →
         sort_key "reactions" p = total_reactions (Reactions p))) ∧
  (∀ p, sort_key "created_at" p = CreatedAt p ∧ sort_key "updated_at" p = UpdatedAt p ∧
        sort_key "comments" p = Comments p ∧ sort_key "shares" p = Shares p) ∧
  (∀ field p, field ∉ ["created_at"; "updated_at"; "reactions"; "comments"; "shares"] →
              sort_key field p = CreatedAt p) ∧
  GormPostStore.ListPosts_order filter
  = (if decide (FilterSortBy filter ∈ ["created_at"; "updated_at"; "comments"; "shares"])
     then FilterSortBy filter else "created_at")
    +:+ " " +:+
    (if decide (FilterSortBy filter ≠ "" ∧ FilterSortOrder filter = "asc")
     then "ASC" else "DESC").
Proof.
  intros key. split_and!.
  - done.
  - intros Hby. unfold sorted_results. by rewrite decide_True.
  - intros Hby. unfold sorted_results. rewrite decide_False by done. split_and!.
    + apply sort_Slice_perm.
    + intros Hasc. apply sort_Slice_ascending. intros a b.
      rewrite sort_less_key. cbv zeta. by rewrite decide_False.
    + intros Hdesc. apply sort_Slice_inverted. intros a b.
      rewrite sort_less_key. cbv zeta. by rewrite decide_True.
  - intros p. split.
    + unfold sort_key. simpl. apply sumReactions_total.
    + intros Hfit. unfold sort_key. simpl. by apply sumReactions_exact.
  - done.
  - intros field p Hfield. unfold sort_key.
    repeat (destruct (decide (field = _)) as [->|?];
            [exfalso; apply Hfield; set_solver|]).
    done.
  - unfold GormPostStore.ListPosts_order.
    destruct (decide (FilterSortBy filter ≠ "")) as [Hby|Hby].
    + assert (FilterSortBy filter ∈ ["created_at"; "updated_at"; "comments"; "shares"]
              ↔ FilterSortBy filter = "created_at" ∨ FilterSortBy filter = "updated_at" ∨
                FilterSortBy filter = "comments" ∨ FilterSortBy filter = "shares")
        as Hmem by set_solver.
      destruct (decide (FilterSortBy filter ∈ _)) as [Hin|Hin],
               (decide (_ ∨ _)) as [Hor|Hor]; try tauto.
      * destruct (decide (FilterSortOrder filter = "asc")) as [Ho|Ho].
        -- by rewrite decide_True.
        -- rewrite decide_False; [done|tauto].
      * destruct (decide (FilterSortBy filter = "reactions"));
          (destruct (decide (FilterSortOrder filter = "asc")) as [Ho|Ho];
           [by rewrite decide_True|rewrite decide_False; [done|tauto]]).
    + assert (FilterSortBy filter = "") as Hempty
        by (by destruct (decide (FilterSortBy filter = ""))).
      rewrite Hempty. rewrite decide_False by set_solver.
      rewrite decide_False; [done|]. intros [? _]. done.
Qed.

End Sorting.

Lemma ListPosts_sorting_witness :
  let s := saved [quiet_post "a" 1; lively_post "b" 2; quiet_post "c" 3] in
  let filter := sorted_by "reactions" "desc" in
  FilterSortBy filter ≠ "" ∧ FilterSortOrder filter = "desc" ∧
  StronglySorted (λ a b, sort_key "reactions" a >= sort_key "reactions" b)
                 (sorted_results filter s) ∧
  sort_key "reactions" (lively_post "b" 2) = 18 ∧
  sorted_results no_filter s = collect no_filter s ∧
  GormPostStore.ListPosts_order filter = "created_at DESC".
Proof.
  intros s filter.
  destruct (ListPosts_sorting filter s) as (_ & _ & Hsorted & Hkey & _ & _ & Hgorm).
  destruct (ListPosts_sorting no_filter s) as (_ & Hempty & _).
  destruct Hsorted as (_ & _ & Hdesc); [discriminate|].
  destruct (Hkey (lively_post "b" 2)) as [_ Hfit].
  split; [discriminate|]. split; [reflexivity|]. split; [by apply Hdesc|].
  split; [rewrite Hfit; [reflexivity|vm_compute; split; discriminate]|].
  split; [by apply Hempty|].
  rewrite Hgorm. reflexivity.
Defined.

(** The fields at work on three posts created in the order a, b, c, of
    which b has the most reactions; an unknown field sorts by creation
    time. *)
Example ListPosts_sort_fields :
  let s := saved [quiet_post "a" 1; lively_post "b" 2; quiet_post "c" 3] in
  ID <$> default [] (ListPosts (sorted_by "created_at" "desc") s) = ["c"; "b"; "a"] ∧
  ID <$> default [] (ListPosts (sorted_by "created_at" "asc") s) = ["a"; "b"; "c"] ∧
  ID <$> default [] (ListPosts (sorted_by "created_at" "") s) = ["a"; "b"; "c"] ∧
  ID <$> default [] (ListPosts (sorted_by "likes" "") s) = ["a"; "b"; "c"] ∧
  (ID <$> default [] (ListPosts (sorted_by "reactions" "desc") s)) !! 0%nat = Some "b".
Proof. vm_compute. done. Qed.

(** C9 as it was stated fails for the filter whose [SortBy] is empty: the
    empty string is not one of the five fields, yet nothing falls back to
    created_at, because no sort runs at all.  With the iteration order of
    the computing runtime, "p1" created at time 2 is returned before "p2"
    created at time 1. *)
Lemma ListPosts_empty_SortBy_unsorted :
  let p1 := sample_post "p1" "u1" [] 2 in
  let p2 := sample_post "p2" "u1" [] 1 in
  FilterSortBy no_filter = "" ∧
  ListPosts no_filter (saved [p1; p2]) = Some [p1; p2] ∧
  ¬ StronglySorted (λ a b, CreatedAt a <= CreatedAt b) [p1; p2].
Proof.
  intros p1 p2. split_and!; [reflexivity|vm_compute; reflexivity|].
  intros Hs. apply StronglySorted_inv in Hs as [_ Hall].
  apply Forall_cons in Hall as [Hle _]. simpl in Hle. lia.
Qed.

(** Where the sum of the counts does not fit an [int], the reactions key
    is the wrapped sum: a post with the largest [int] of likes and one love
    has the sum 2^63 and the key -2^63, and is sorted before a post without
    reactions in ascending order. *)
Example ListPosts_reactions_key_wraps :
  let big := engaging_post "big" 1 [(ReactionLike, max_int); (ReactionLove, 1)] 0 0 in
  let small := engaging_post "small" 2 [] 0 0 in
  total_reactions (Reactions big) = 2 ^ 63 ∧ sort_key "reactions" big = min_int ∧
  total_reactions (Reactions small) = 0 ∧ sort_key "reactions" small = 0 ∧
  ListPosts (sorted_by "reactions" "asc") (saved [big; small]) = Some [big; small].
Proof. intros big small. split_and!; vm_compute; reflexivity. Qed.

(** The orders that the GORM store asks for, at the filters where they
    differ from the sort of the in-memory store. *)
Example GormPostStore_ListPosts_orders :
  GormPostStore.ListPosts_order (sorted_by "created_at" "") = "created_at DESC" ∧
  GormPostStore.ListPosts_order (sorted_by "created_at" "asc") = "created_at ASC" ∧
  GormPostStore.ListPosts_order (sorted_by "reactions" "desc") = "created_at DESC" ∧
  GormPostStore.ListPosts_order (sorted_by "shares" "desc") = "shares DESC" ∧
  GormPostStore.ListPosts_order no_filter = "created_at DESC".
Proof. split_and!; reflexivity. Qed.

(** ** The reaction ledger and the counts *)

Lemma kind_rows_empty (k : ReactionType) : kind_rows k ∅ = 0%nat.
Proof. unfold kind_rows. by rewrite map_filter_empty, map_size_empty. Qed.

Lemma kind_rows_insert_new (k : ReactionType) (rows : gmap string UserReaction)
    (u : string) (r : UserReaction) :
  rows !! u = None →
  kind_rows k (<[u := r]> rows)
  = (kind_rows k rows + (if decide (ReactionKind r = k) then 1 else 0))%nat.
Proof.
  intros Hnone. unfold kind_rows. destruct (decide (ReactionKind r = k)) as [Hk|Hk].
  - rewrite map_filter_insert_True by done.
    rewrite map_size_insert_None; [lia|].
    apply map_lookup_filter_None. by left.
  - rewrite map_filter_insert_False by done.
    rewrite delete_id by done. lia.
Qed.

Lemma kind_rows_delete (k : ReactionType) (rows : gmap string UserReaction)
    (u : string) (r : UserReaction) :
  rows !! u = Some r →
  kind_rows k rows
  = (kind_rows k (delete u rows)
     + (if decide (ReactionKind r = k) then 1 else 0))%nat.
Proof.
  intros Hsome. rewrite <- (insert_delete_id rows u r Hsome) at 1.
  apply kind_rows_insert_new, lookup_delete_eq.
Qed.

Lemma kind_rows_replace (k : ReactionType) (rows : gmap string UserReaction)
    (u : string) (r r' : UserReaction) :
  rows !! u = Some r →
  (kind_rows k (<[u := r']> rows) + (if decide (ReactionKind r = k) then 1 else 0)
   = kind_rows k rows + (if decide (ReactionKind r' = k) then 1 else 0))%nat.
Proof.
  intros Hsome. rewrite <- (insert_delete_eq rows u r').
  rewrite kind_rows_insert_new by apply lookup_delete_eq.
  rewrite (kind_rows_delete k rows u r Hsome). lia.
Qed.

Lemma kind_rows_le_size (k : ReactionType) (rows : gmap string UserReaction) :
  (kind_rows k rows <= size rows)%nat.
Proof. unfold kind_rows. apply map_subseteq_size, map_filter_subseteq. Qed.

Lemma kind_rows_pos (k : ReactionType) (rows : gmap string UserReaction)
    (u : string) (r : UserReaction) :
  rows !! u = Some r → ReactionKind r = k → (0 < kind_rows k rows)%nat.
Proof.
  intros Hsome Hk. rewrite (kind_rows_delete k rows u r Hsome).
  rewrite decide_True by done. lia.
Qed.

Lemma count_counters (post : Post) (k : ReactionType) :
  count_of (Some (counters post)) k = count_of (Reactions post) k.
Proof.
  unfold counters, count_of. destruct (Reactions post); simpl; [done|].
  by rewrite lookup_empty.
Qed.

Lemma count_bump (k k' : ReactionType) (c : gmap ReactionType Z) :
  count_of (Some (bump k c)) k'
  = if decide (k' = k) then int_add (count_of (Some c) k) 1 else count_of (Some c) k'.
Proof.
  unfold bump, count_of. destruct (decide (k' = k)) as [->|Hne].
  - by rewrite lookup_insert_eq.
  - by rewrite lookup_insert_ne.
Qed.

Lemma count_drop_one (k k' : ReactionType) (c : gmap ReactionType Z) :
  count_of (Some (drop_one k c)) k'
  = if decide (k' = k) then
      if bool_decide (count_of (Some c) k > 0) then int_sub (count_of (Some c) k) 1
      else count_of (Some c) k
    else count_of (Some c) k'.
Proof.
  unfold drop_one, count_of. destruct (decide (k' = k)) as [->|Hne].
  - case_bool_decide; [by rewrite lookup_insert_eq|done].
  - case_bool_decide; [by rewrite lookup_insert_ne|done].
Qed.





(** The reaction methods never take a count below zero: [SaveReaction]
    raises one count by one and [DeleteReaction] lowers a positive count by
    one.  Negative counts can only come in through [SavePost]. *)
Lemma SaveReaction_counts_within (now : Z) (postID userID : string)
    (kind : ReactionType) (s : t) (n : Z) :
  counts_within n s → n < max_int →
  counts_within (n + 1) (SaveReaction now postID userID kind s).1.
Proof.
  intros Hw Hmax.
  assert (counts_within (n + 1) s) as Hw'
    by (intros pid p k Hp; specialize (Hw pid p k Hp); lia).
  unfold SaveReaction.
  destruct (posts s !! postID) as [post|] eqn:Hpost; [|done].
  case_bool_decide; [done|].
  assert (∀ k, 0 <= count_of (Reactions post) k <= n) as Hpost_w
    by (intros k; by apply (Hw postID)).
  destruct (default ∅ (reactions s !! postID) !! userID) as [row|].
  - destruct (decide (ReactionKind row = kind)); [done|].
    intros pid p k. simpl. destruct (decide (pid = postID)) as [->|Hne].
    + rewrite lookup_insert_eq. intros [= <-]. simpl.
      rewrite count_bump, !count_drop_one, !count_counters.
      pose proof (Hpost_w kind). pose proof (Hpost_w (ReactionKind row)).
      pose proof (Hpost_w k).
      repeat case_decide; repeat case_bool_decide;
        rewrite ?int_add_small, ?int_sub_small
          by (unfold int_range, min_int, max_int in *; lia);
        lia.
    + rewrite lookup_insert_ne by done. apply Hw'.
  - intros pid p k. simpl. destruct (decide (pid = postID)) as [->|Hne].
    + rewrite lookup_insert_eq. intros [= <-]. simpl.
      rewrite count_bump, !count_counters.
      pose proof (Hpost_w kind). pose proof (Hpost_w k).
      case_decide;
        rewrite ?int_add_small by (unfold int_range, min_int, max_int in *; lia);
        lia.
    + rewrite lookup_insert_ne by done. apply Hw'.
Qed.

Lemma DeleteReaction_counts_within (postID userID : string)
    (kind : ReactionType) (s : t) (n : Z) :
  counts_within n s → n <= max_int →
  counts_within n (DeleteReaction postID userID kind s).1.
Proof.
  intros Hw Hmax. unfold DeleteReaction.
  destruct (posts s !! postID) as [post|] eqn:Hpost; [|done].
  destruct (reactions s !! postID) as [rows|]; [|done].
  destruct (rows !! userID) as [row|]; [|done].
  destruct (decide (ReactionKind row = kind)); [|done].
  intros pid p k. simpl. destruct (decide (pid = postID)) as [->|Hne].
  - rewrite lookup_insert_eq. intros [= <-].
    pose proof (Hw postID post kind Hpost). pose proof (Hw postID post k Hpost).
    destruct (Reactions post) as [c|] eqn:Hc; simpl; [|by rewrite Hc].
    rewrite count_drop_one.
    case_decide; repeat case_bool_decide;
      rewrite ?int_sub_small by (unfold int_range, min_int, max_int in *; lia);
      lia.
  - rewrite lookup_insert_ne by done. apply Hw.
Qed.

(** ** Counts and ledger agree along a run *)

Lemma SavePost_posts (post : Post) (s : t) :
  posts (SavePost post s).1 = <[ID post := post]> (posts s) ∧
  reactions (SavePost post s).1 = reactions s.
Proof. unfold SavePost. by destruct (posts s !! ID post). Qed.

Lemma counts_agree_empty : counts_agree NewInMemoryPostStore.
Proof.
  split; [done|]. intros postID post k Hpost. simpl in Hpost.
  by rewrite lookup_empty in Hpost.
Qed.

Lemma SavePost_agree (post : Post) (s : t) (n : nat) :
  counts_agree s → ledgers_within n s → keeps_counts s post →
  counts_agree (SavePost post s).1 ∧ ledgers_within n (SavePost post s).1.
Proof.
  intros [Hled Hcnt] Hn Hkeep.
  destruct (SavePost_posts post s) as [Hposts Hreact].
  split; [split|].
  - intros postID. rewrite Hposts, Hreact.
    destruct (decide (postID = ID post)) as [->|Hne].
    + by rewrite lookup_insert_eq.
    + rewrite lookup_insert_ne by done. apply Hled.
  - intros postID p k. unfold ledger. rewrite Hposts, Hreact.
    destruct (decide (postID = ID post)) as [->|Hne].
    + rewrite lookup_insert_eq. intros [= <-]. rewrite (Hkeep k).
      destruct (posts s !! ID post) as [old|] eqn:Hold.
      * by apply Hcnt.
      * rewrite (Hled _ Hold). simpl. by rewrite kind_rows_empty.
    + rewrite lookup_insert_ne by done. apply Hcnt.
  - intros postID. unfold ledger. rewrite Hreact. apply Hn.
Qed.

Lemma DeletePost_agree (postID userID : string) (s : t) (n : nat) :
  counts_agree s → ledgers_within n s →
  counts_agree (DeletePost postID userID s).1 ∧
  ledgers_within n (DeletePost postID userID s).1.
Proof.
  intros [Hled Hcnt] Hn. unfold DeletePost.
  destruct (posts s !! postID) as [post|] eqn:Hpost; [|done].
  destruct (decide (UserID post = userID)); [|done]. simpl.
  split; [split|].
  - intros pid. simpl. destruct (decide (pid = postID)) as [->|Hne].
    + by rewrite !lookup_delete_eq.
    + rewrite !lookup_delete_ne by done. apply Hled.
  - intros pid p k. unfold ledger. simpl.
    destruct (decide (pid = postID)) as [->|Hne].
    + by rewrite lookup_delete_eq.
    + rewrite !lookup_delete_ne by done. apply Hcnt.
  - intros pid. unfold ledger. simpl.
    destruct (decide (pid = postID)) as [->|Hne].
    + rewrite lookup_delete_eq. simpl. rewrite map_size_empty. lia.
    + rewrite lookup_delete_ne by done. apply Hn.
Qed.

Lemma ledger_insert (ps : gmap string Post)
    (rs : gmap string (gmap string UserReaction)) (up tp : gmap string (list string))
    (postID postID' : string) (rows : gmap string UserReaction) :
  ledger (mkStore ps (<[postID := rows]> rs) up tp) postID'
  = if decide (postID' = postID) then rows else default ∅ (rs !! postID').
Proof.
  unfold ledger. simpl. destruct (decide (postID' = postID)) as [->|Hne].
  - by rewrite lookup_insert_eq.
  - by rewrite lookup_insert_ne.
Qed.

Lemma ledgers_within_mono (n m : nat) (s : t) :
  (n <= m)%nat → ledgers_within n s → ledgers_within m s.
Proof. intros Hle Hn postID. specialize (Hn postID). lia. Qed.

Lemma SaveReaction_agree (now : Z) (postID userID : string)
    (kind : ReactionType) (s : t) (n : nat) :
  counts_agree s → ledgers_within n s → Z.of_nat n < max_int →
  counts_agree (SaveReaction now postID userID kind s).1 ∧
  ledgers_within (S n) (SaveReaction now postID userID kind s).1.
Proof.
  intros [Hled Hcnt] Hn Hmax.
  assert (ledgers_within (S n) s) as HSn by (eapply ledgers_within_mono; [|done]; lia).
  unfold SaveReaction.
  destruct (posts s !! postID) as [post|] eqn:Hpost; [|done].
  case_bool_decide as Hkind; [done|].
  fold (ledger s postID).
  pose proof (Hn postID) as Hsize.
  assert (∀ k, count_of (Reactions post) k = Z.of_nat (kind_rows k (ledger s postID)))
    as Hpc by (intros k; by apply Hcnt).
  assert (∀ k, 0 <= count_of (Reactions post) k <= Z.of_nat n) as Hbound.
  { intros k. rewrite Hpc. pose proof (kind_rows_le_size k (ledger s postID)). lia. }
  destruct (ledger s postID !! userID) as [row|] eqn:Hrow.
  - destruct (decide (ReactionKind row = kind)) as [Hsame|Hdiff]; simpl.
    + (* the same kind again: nothing changes *)
      split; [split|].
      * intros pid Hnone. simpl in *.
        rewrite lookup_insert_ne by (intros ->; congruence). by apply Hled.
      * intros pid p k Hp. simpl in Hp. rewrite ledger_insert.
        destruct (decide (pid = postID)) as [->|Hne]; by apply Hcnt.
      * intros pid. rewrite ledger_insert.
        destruct (decide (pid = postID)) as [->|Hne]; [lia|apply HSn].
    + (* another kind: one count down, one up *)
      split; [split|].
      * intros pid. simpl. destruct (decide (pid = postID)) as [->|Hne].
        -- by rewrite lookup_insert_eq.
        -- rewrite !lookup_insert_ne by done. apply Hled.
      * intros pid p k. simpl. rewrite ledger_insert.
        destruct (decide (pid = postID)) as [->|Hne].
        -- rewrite lookup_insert_eq. intros [= <-]. simpl.
           rewrite count_bump, !count_drop_one, !count_counters.
           rewrite (decide_False (P := kind = ReactionKind row)) by done.
           pose proof (kind_rows_replace k (ledger s postID) userID row
                         (mkUserReaction (ReactorID row) kind now) Hrow) as Hrep.
           simpl in Hrep.
           pose proof (kind_rows_pos (ReactionKind row) _ _ _ Hrow eq_refl) as Hpos.
           pose proof (Hbound kind) as Hbk.
           pose proof (Hbound (ReactionKind row)) as Hbr.
           rewrite (bool_decide_eq_true_2 (count_of (Reactions post) (ReactionKind row) > 0))
             by (rewrite Hpc; lia).
           rewrite int_add_small, int_sub_small
             by (unfold int_range, min_int, max_int in *; lia).
           rewrite !Hpc.
           repeat case_decide; try congruence; try subst k; lia.
        -- rewrite lookup_insert_ne by done. apply Hcnt.
      * intros pid. rewrite ledger_insert.
        destruct (decide (pid = postID)) as [->|Hne]; [|apply HSn].
        rewrite map_size_insert_Some by done. lia.
  - (* a new row: one count up *)
    simpl. split; [split|].
    + intros pid. simpl. destruct (decide (pid = postID)) as [->|Hne].
      * by rewrite lookup_insert_eq.
      * rewrite !lookup_insert_ne by done. apply Hled.
    + intros pid p k. simpl. rewrite ledger_insert.
      destruct (decide (pid = postID)) as [->|Hne].
      * rewrite lookup_insert_eq. intros [= <-]. simpl.
        rewrite count_bump, !count_counters.
        rewrite kind_rows_insert_new by done. simpl.
        pose proof (Hbound kind) as Hbk.
        rewrite int_add_small by (unfold int_range, min_int, max_int in *; lia).
        rewrite !Hpc.
        repeat case_decide; try congruence; try subst k; lia.
      * rewrite lookup_insert_ne by done. apply Hcnt.
    + intros pid. rewrite ledger_insert.
      destruct (decide (pid = postID)) as [->|Hne]; [|apply HSn].
      rewrite map_size_insert_None by done. lia.
Qed.

Lemma DeleteReaction_agree (postID userID : string)
    (kind : ReactionType) (s : t) (n : nat) :
  counts_agree s → ledgers_within n s → Z.of_nat n < max_int →
  counts_agree (DeleteReaction postID userID kind s).1 ∧
  ledgers_within n (DeleteReaction postID userID kind s).1.
Proof.
  intros [Hled Hcnt] Hn Hmax. unfold DeleteReaction.
  destruct (posts s !! postID) as [post|] eqn:Hpost; [|done].
  destruct (reactions s !! postID) as [rows|] eqn:Hrows; [|done].
  destruct (rows !! userID) as [row|] eqn:Hrow; [|done].
  destruct (decide (ReactionKind row = kind)) as [Hsame|Hdiff]; [|done].
  assert (ledger s postID = rows) as Hledger by (unfold ledger; by rewrite Hrows).
  assert (∀ k, count_of (Reactions post) k = Z.of_nat (kind_rows k rows))
    as Hpc by (intros k; rewrite <- Hledger; by apply Hcnt).
  pose proof (kind_rows_pos kind rows userID row Hrow Hsame) as Hpos.
  pose proof (kind_rows_le_size kind rows) as Hle.
  pose proof (Hn postID) as Hsize. rewrite Hledger in Hsize.
  destruct (Reactions post) as [c|] eqn:Hc;
    [|specialize (Hpc kind); unfold count_of in Hpc; lia].
  simpl. split; [split|].
  - intros pid. simpl. destruct (decide (pid = postID)) as [->|Hne].
    + by rewrite lookup_insert_eq.
    + rewrite !lookup_insert_ne by done. apply Hled.
  - intros pid p k. simpl. rewrite ledger_insert.
    destruct (decide (pid = postID)) as [->|Hne].
    + rewrite lookup_insert_eq. intros [= <-]. simpl.
      rewrite count_drop_one, !Hpc.
      rewrite (kind_rows_delete k rows userID row Hrow).
      rewrite (bool_decide_eq_true_2 (Z.of_nat (kind_rows kind rows) > 0)) by lia.
      rewrite int_sub_small by (unfold int_range, min_int, max_int in *; lia).
      rewrite (kind_rows_delete kind rows userID row Hrow).
      repeat case_decide; try congruence; try subst k; lia.
    + rewrite lookup_insert_ne by done. apply Hcnt.
  - intros pid. rewrite ledger_insert.
    destruct (decide (pid = postID)) as [->|Hne]; [|apply Hn].
    rewrite map_size_delete_Some by done. lia.
Qed.

Lemma run_op_agree (o : op) (s : t) (n : nat) :
  counts_agree s → ledgers_within n s → Z.of_nat n < max_int →
  match o with OpSavePost post => keeps_counts s post | _ => True end →
  counts_agree (run_op o s) ∧ ledgers_within (S n) (run_op o s).
Proof.
  intros Hagree Hn Hmax Hkeep. destruct o as [post|pid uid|now pid uid k|pid uid k];
    simpl.
  - destruct (SavePost_agree post s n Hagree Hn Hkeep) as [? ?].
    split; [done|]. eapply ledgers_within_mono; [|done]. lia.
  - destruct (DeletePost_agree pid uid s n Hagree Hn) as [? ?].
    split; [done|]. eapply ledgers_within_mono; [|done]. lia.
  - by apply SaveReaction_agree.
  - destruct (DeleteReaction_agree pid uid k s n Hagree Hn Hmax) as [? ?].
    split; [done|]. eapply ledgers_within_mono; [|done]. lia.
Qed.

Lemma run_from_agree (ops : list op) (s : t) (n : nat) :
  counts_agree s → ledgers_within n s →
  Z.of_nat (n + length ops) <= max_int → counts_kept s ops →
  counts_agree (run_from s ops) ∧ ledgers_within (n + length ops) (run_from s ops).
Proof.
  revert s n. induction ops as [|o ops IH]; intros s n Hagree Hn Hmax Hkept.
  - simpl. rewrite Nat.add_0_r. done.
  - destruct Hkept as [Hkeep Hrest]. simpl in Hmax.
    destruct (run_op_agree o s n Hagree Hn) as [Hagree' Hn']; [lia|done|].
    replace (n + length (o :: ops))%nat with (S n + length ops)%nat by (simpl; lia).
    apply IH; [done|done|lia|done].
Qed.

(** ** From kind-by-kind agreement to the sum *)

Lemma sum_counts_insert (c : gmap ReactionType Z) (k : ReactionType) (v v' : Z) :
  c !! k = Some v →
  sum_counts (map_to_list (<[k := v']> c)) = sum_counts (map_to_list c) - v + v'.
Proof.
  intros Hk. rewrite <- (insert_delete_eq c k v').
  rewrite map_to_list_insert by apply lookup_delete_eq.
  rewrite <- (map_to_list_delete c k v Hk). simpl. lia.
Qed.

Lemma sum_counts_zero (c : gmap ReactionType Z) :
  (∀ k, count_of (Some c) k = 0) → sum_counts (map_to_list c) = 0.
Proof.
  intros Hzero.
  assert (Forall (λ kv, kv.2 = 0) (map_to_list c)) as Hall.
  { apply Forall_forall. intros [k v] Hin. apply elem_of_map_to_list in Hin.
    specialize (Hzero k). unfold count_of in Hzero. rewrite Hin in Hzero. done. }
  induction Hall as [|[k v] l Hv _ IH]; simpl in *; [done|]. lia.
Qed.

Lemma counts_sum_rows (rows : gmap string UserReaction) (c : gmap ReactionType Z) :
  (∀ k, count_of (Some c) k = Z.of_nat (kind_rows k rows)) →
  sum_counts (map_to_list c) = Z.of_nat (size rows).
Proof.
  revert c. induction rows as [|u r rows Hu IH] using map_ind; intros c Hagree.
  - rewrite map_size_empty. apply sum_counts_zero.
    intros k. rewrite Hagree. by rewrite kind_rows_empty.
  - pose proof (Hagree (ReactionKind r)) as Hr.
    rewrite kind_rows_insert_new, decide_True in Hr by done.
    destruct (c !! ReactionKind r) as [v|] eqn:Hv;
      [|unfold count_of in Hr; rewrite Hv in Hr; simpl in Hr; lia].
    assert (v = Z.of_nat (kind_rows (ReactionKind r) rows) + 1) as Hveq
      by (unfold count_of in Hr; rewrite Hv in Hr; simpl in Hr; lia).
    specialize (IH (<[ReactionKind r := v - 1]> c)).
    rewrite (sum_counts_insert c _ v (v - 1) Hv) in IH.
    rewrite map_size_insert_None by done.
    rewrite Nat2Z.inj_succ, <- IH; [lia|].
    intros k. specialize (Hagree k).
    rewrite kind_rows_insert_new in Hagree by done.
    unfold count_of in *. destruct (decide (k = ReactionKind r)) as [->|Hne].
    + rewrite lookup_insert_eq. simpl. lia.
    + rewrite lookup_insert_ne by done. rewrite decide_False in Hagree by done. lia.
Qed.

Section Invariant.
Context `{GoRuntime}.

(** C3, as amended.  Take any run of [SavePost], [DeletePost],
    [SaveReaction] and [DeleteReaction] calls from the empty store in which
    every [SavePost] leaves the reaction counts alone: it stores, for each
    kind, the count that the stored post of that ID has, or zero for a new
    ID.  After the run (of fewer calls than the largest [int]), on every
    stored post the sum of the per-kind counts that [sumReactions] computes
    equals the number of ledger rows stored for that post; indeed the
    count of each kind equals the number of rows of that kind. *)
Theorem counts_match_ledger (ops : list op) :
  counts_kept NewInMemoryPostStore ops →
  Z.of_nat (length ops) <= max_int →
  ∀ postID post, posts (run ops) !! postID = Some post →
    sumReactions (Reactions post) = Z.of_nat (size (ledger (run ops) postID)) ∧
    ∀ k, count_of (Reactions post) k = Z.of_nat (kind_rows k (ledger (run ops) postID)).
Proof.
  intros Hkept Hlen postID post Hpost.
  destruct (run_from_agree ops NewInMemoryPostStore 0 counts_agree_empty)
    as [[Hled Hcnt] Hn]; [|done|done|].
  { intros pid. unfold ledger. simpl. rewrite lookup_empty. simpl.
    rewrite map_size_empty. lia. }
  fold (run ops) in Hled, Hcnt, Hn. simpl in Hn.
  split; [|intros k; by apply Hcnt].
  rewrite sumReactions_total.
  assert (total_reactions (Reactions post)
          = Z.of_nat (size (ledger (run ops) postID))) as ->.
  { pose proof (λ k, Hcnt postID post k Hpost) as Hpc.
    destruct (Reactions post) as [c|] eqn:Hc; simpl.
    - by apply counts_sum_rows.
    - rewrite <- (counts_sum_rows (ledger (run ops) postID) ∅).
      + by rewrite map_to_list_empty.
      + intros k. rewrite <- Hpc. unfold count_of. by rewrite lookup_empty. }
  apply int_wrap_id. specialize (Hn postID).
  unfold int_range, min_int, max_int in *. lia.
Qed.

End Invariant.

Lemma keeps_counts_new (s : t) (post : Post) :
  posts s !! ID post = None → Reactions post = Some ∅ → keeps_counts s post.
Proof.
  intros Hnew Hempty k. rewrite Hnew, Hempty. unfold count_of.
  by rewrite lookup_empty.
Qed.

Lemma keeps_counts_same (s : t) (post old : Post) :
  posts s !! ID post = Some old → Reactions post = Reactions old →
  keeps_counts s post.
Proof. intros Hold Hsame k. by rewrite Hold, Hsame. Qed.

Lemma counts_match_ledger_witness :
  let ops :=
    [OpSavePost (sample_post "p1" "u1" ["go"] 1);
     OpSaveReaction 5 "p1" "u2" ReactionLike;
     OpSaveReaction 6 "p1" "u3" ReactionLove;
     OpSaveReaction 7 "p1" "u2" ReactionHaha;
     OpDeleteReaction "p1" "u3" ReactionLove;
     OpSavePost
       (with_Reactions
          (Some (list_to_map [(ReactionLike, 0); (ReactionLove, 0); (ReactionHaha, 1)]))
          (sample_post "p1" "u1" ["rust"] 9))] in
  counts_kept NewInMemoryPostStore ops ∧
  Z.of_nat (length ops) <= max_int ∧
  ∃ post, posts (run ops) !! "p1" = Some post ∧
          Tags post = ["rust"] ∧
          sumReactions (Reactions post) = Z.of_nat (size (ledger (run ops) "p1")).
Proof.
  intros ops.
  assert (counts_kept NewInMemoryPostStore ops) as Hkept.
  { cbn [counts_kept ops]. split_and!; try exact I.
    - apply keeps_counts_new; reflexivity.
    - eapply keeps_counts_same; vm_compute; reflexivity. }
  assert (Z.of_nat (length ops) <= max_int) as Hlen by (vm_compute; discriminate).
  split_and!; [exact Hkept|exact Hlen|].
  eexists. split; [vm_compute; reflexivity|]. split; [reflexivity|].
  eapply (counts_match_ledger ops Hkept Hlen "p1"). vm_compute. reflexivity.
Defined.

(** C3 as it was stated fails because [SavePost] stores the counts that the
    caller supplies.  (1) A new post saved with 10 likes and 8 wows, as the
    trending test does, has a sum of 18 and no ledger row.  (2) A post that
    has one reaction and is then saved again with an empty counter map has
    a sum of 0 and one ledger row. *)
Lemma SavePost_counts_without_ledger :
  (let s := run [OpSavePost (lively_post "b" 1)] in
   ∃ post, posts s !! "b" = Some post ∧
           sumReactions (Reactions post) = 18 ∧
           size (ledger s "b") = 0%nat ∧
           sumReactions (Reactions post) ≠ Z.of_nat (size (ledger s "b"))) ∧
  (let s := run [OpSavePost (sample_post "p1" "u1" [] 1);
                 OpSaveReaction 5 "p1" "u2" ReactionLike;
                 OpSavePost (sample_post "p1" "u1" [] 1)] in
   ∃ post, posts s !! "p1" = Some post ∧
           sumReactions (Reactions post) = 0 ∧
           size (ledger s "p1") = 1%nat ∧
           sumReactions (Reactions post) ≠ Z.of_nat (size (ledger s "p1"))).
Proof.
  split; eexists; (split; [vm_compute; reflexivity|]); vm_compute;
    split_and!; done.
Qed.

(** ** The indices under index-safe saves

    What [SavePost] and [DeletePost] do keep: as long as new posts come
    with distinct tags and stored posts keep their owner, the indices reflect
    the posts.  The inputs of [SavePost_breaks_index_invariant] are the two
    ways out of this. *)

Lemma index_get_insert (idx : gmap string (list string)) (k k' : string)
    (l : list string) :
  index_get (<[k := l]> idx) k' = if decide (k' = k) then l else index_get idx k'.
Proof.
  unfold index_get. destruct (decide (k' = k)) as [->|Hne].
  - by rewrite lookup_insert_eq.
  - by rewrite lookup_insert_ne.
Qed.

Lemma cut_first_None (id : string) (l : list string) :
  cut_first id l = None ↔ id ∉ l.
Proof.
  induction l as [|x l IH]; simpl.
  - split; [intros _; apply not_elem_of_nil|done].
  - destruct (decide (x = id)) as [->|Hne].
    + split; [done|]. intros Hnot. exfalso. apply Hnot, list_elem_of_here.
    + rewrite fmap_None, IH, not_elem_of_cons. naive_solver.
Qed.

Lemma cut_first_Some (id : string) (l l' : list string) :
  NoDup l → cut_first id l = Some l' →
  NoDup l' ∧ ∀ x, x ∈ l' ↔ x ∈ l ∧ x ≠ id.
Proof.
  revert l'. induction l as [|y l IH]; intros l' Hnd Hcut; simpl in Hcut; [done|].
  apply NoDup_cons in Hnd as [Hy Hnd].
  destruct (decide (y = id)) as [->|Hne].
  - injection Hcut as <-. split; [done|].
    intros x. rewrite elem_of_cons. split; [|naive_solver].
    intros Hx. split; [by right|]. intros ->. done.
  - apply fmap_Some in Hcut as (l'' & Hcut & ->).
    destruct (IH l'' Hnd Hcut) as [Hnd'' Hmem]. split.
    + apply NoDup_cons. split; [|done]. rewrite Hmem. naive_solver.
    + intros x. rewrite !elem_of_cons, Hmem. naive_solver.
Qed.

Lemma index_remove_spec (idx : gmap string (list string)) (k pid : string) :
  (∀ k', NoDup (index_get idx k')) →
  (∀ k', NoDup (index_get (index_remove idx k pid) k')) ∧
  (∀ k' x, x ∈ index_get (index_remove idx k pid) k'
           ↔ x ∈ index_get idx k' ∧ (k' = k → x ≠ pid)).
Proof.
  intros Hnd. unfold index_remove.
  destruct (cut_first pid (index_get idx k)) as [l'|] eqn:Hcut.
  - destruct (cut_first_Some pid _ l' (Hnd k) Hcut) as [Hnd' Hmem]. split.
    + intros k'. rewrite index_get_insert. by destruct (decide (k' = k)).
    + intros k' x. rewrite index_get_insert.
      destruct (decide (k' = k)) as [->|Hne]; [rewrite Hmem|]; naive_solver.
  - apply cut_first_None in Hcut. split; [done|].
    intros k' x. split; [|naive_solver].
    intros Hx. split; [done|]. intros -> ->. done.
Qed.

Lemma index_append_spec (idx : gmap string (list string)) (k pid : string) :
  (∀ k', NoDup (index_get idx k')) → pid ∉ index_get idx k →
  (∀ k', NoDup (index_get (index_append idx k pid) k')) ∧
  (∀ k' x, x ∈ index_get (index_append idx k pid) k'
           ↔ x ∈ index_get idx k' ∨ (x = pid ∧ k' = k)).
Proof.
  intros Hnd Hnot. unfold index_append. split.
  - intros k'. rewrite index_get_insert. destruct (decide (k' = k)) as [->|]; [|done].
    apply NoDup_app. split_and!; [done| |apply NoDup_singleton].
    intros x Hx ->%list_elem_of_singleton. done.
  - intros k' x. rewrite index_get_insert.
    destruct (decide (k' = k)) as [->|Hne].
    + rewrite elem_of_app, list_elem_of_singleton. naive_solver.
    + naive_solver.
Qed.

Lemma index_add_missing_spec (idx : gmap string (list string)) (k pid : string) :
  (∀ k', NoDup (index_get idx k')) →
  (∀ k', NoDup (index_get (index_add_missing idx k pid) k')) ∧
  (∀ k' x, x ∈ index_get (index_add_missing idx k pid) k'
           ↔ x ∈ index_get idx k' ∨ (x = pid ∧ k' = k)).
Proof.
  intros Hnd. unfold index_add_missing. case_bool_decide as Hin.
  - split; [done|]. intros k' x. split; [by left|].
    intros [Hx|[-> ->]]; done.
  - by apply index_append_spec.
Qed.

Lemma foldl_index_remove (tags : list string) (pid : string)
    (idx : gmap string (list string)) :
  (∀ k, NoDup (index_get idx k)) →
  let idx' := foldl (λ idx tag, index_remove idx tag pid) idx tags in
  (∀ k, NoDup (index_get idx' k)) ∧
  (∀ k x, x ∈ index_get idx' k ↔ x ∈ index_get idx k ∧ (k ∈ tags → x ≠ pid)).
Proof.
  revert idx. induction tags as [|tag tags IH]; intros idx Hnd; simpl.
  - split; [done|]. intros k x. rewrite elem_of_nil. naive_solver.
  - destruct (index_remove_spec idx tag pid Hnd) as [Hnd1 Hmem1].
    destruct (IH _ Hnd1) as [Hnd2 Hmem2]. split; [done|].
    intros k x. rewrite Hmem2, Hmem1, elem_of_cons. naive_solver.
Qed.

Lemma foldl_index_add_missing (tags : list string) (pid : string)
    (idx : gmap string (list string)) :
  (∀ k, NoDup (index_get idx k)) →
  let idx' := foldl (λ idx tag, index_add_missing idx tag pid) idx tags in
  (∀ k, NoDup (index_get idx' k)) ∧
  (∀ k x, x ∈ index_get idx' k ↔ x ∈ index_get idx k ∨ (x = pid ∧ k ∈ tags)).
Proof.
  revert idx. induction tags as [|tag tags IH]; intros idx Hnd; simpl.
  - split; [done|]. intros k x. rewrite elem_of_nil. naive_solver.
  - destruct (index_add_missing_spec idx tag pid Hnd) as [Hnd1 Hmem1].
    destruct (IH _ Hnd1) as [Hnd2 Hmem2]. split; [done|].
    intros k x. rewrite Hmem2, Hmem1, elem_of_cons. naive_solver.
Qed.

Lemma foldl_index_append (tags : list string) (pid : string)
    (idx : gmap string (list string)) :
  NoDup tags →
  (∀ k, NoDup (index_get idx k)) → (∀ k, k ∈ tags → pid ∉ index_get idx k) →
  let idx' := foldl (λ idx tag, index_append idx tag pid) idx tags in
  (∀ k, NoDup (index_get idx' k)) ∧
  (∀ k x, x ∈ index_get idx' k ↔ x ∈ index_get idx k ∨ (x = pid ∧ k ∈ tags)).
Proof.
  revert idx. induction tags as [|tag tags IH]; intros idx Htags Hnd Hfresh; simpl.
  - split; [done|]. intros k x. rewrite elem_of_nil. naive_solver.
  - apply NoDup_cons in Htags as [Htag Htags].
    destruct (index_append_spec idx tag pid Hnd) as [Hnd1 Hmem1];
      [apply Hfresh, list_elem_of_here|].
    destruct (IH _ Htags Hnd1) as [Hnd2 Hmem2].
    { intros k Hk. rewrite Hmem1. intros [Hin|[_ ->]]; [|done].
      by apply (Hfresh k); [right|]. }
    split; [done|].
    intros k x. rewrite Hmem2, Hmem1, elem_of_cons. naive_solver.
Qed.

Lemma indexed_empty : indexed NewInMemoryPostStore.
Proof.
  unfold indexed, index_get. simpl. split_and!.
  - intros user postID. rewrite lookup_empty. simpl. rewrite elem_of_nil.
    split; [done|]. intros (post & Hpost & _). by rewrite lookup_empty in Hpost.
  - intros tag postID. rewrite lookup_empty. simpl. rewrite elem_of_nil.
    split; [done|]. intros (post & Hpost & _). by rewrite lookup_empty in Hpost.
  - intros user. rewrite lookup_empty. apply NoDup_nil_2.
  - intros tag. rewrite lookup_empty. apply NoDup_nil_2.
Qed.

Lemma SavePost_indexed (post : Post) (s : t) :
  indexed s → index_safe s post → indexed (SavePost post s).1.
Proof.
  intros (Huser & Htag & Hndu & Hndt) Hsafe. unfold index_safe in Hsafe.
  unfold SavePost. destruct (posts s !! ID post) as [old|] eqn:Hold; simpl.
  - (* update: the tag entries are dropped and added again *)
    destruct (foldl_index_remove (Tags old) (ID post) (tagPosts s) Hndt)
      as [Hnd1 Hmem1].
    destruct (foldl_index_add_missing (Tags post) (ID post) _ Hnd1)
      as [Hnd2 Hmem2].
    unfold indexed. simpl. split_and!; [| |done|done].
    + intros user pid. rewrite Huser.
      destruct (decide (pid = ID post)) as [->|Hne].
      * rewrite lookup_insert_eq, Hold. naive_solver.
      * by rewrite lookup_insert_ne.
    + intros tag pid. rewrite Hmem2, Hmem1, Htag.
      destruct (decide (pid = ID post)) as [->|Hne].
      * rewrite lookup_insert_eq, Hold. naive_solver.
      * rewrite lookup_insert_ne by done. naive_solver.
  - (* insert: one entry under the owner and one per tag *)
    assert (∀ k, ID post ∉ index_get (userPosts s) k) as Hfu
      by (intros k; rewrite Huser, Hold; naive_solver).
    assert (∀ k, ID post ∉ index_get (tagPosts s) k) as Hft
      by (intros k; rewrite Htag, Hold; naive_solver).
    destruct (index_append_spec (userPosts s) (UserID post) (ID post) Hndu (Hfu _))
      as [Hnd1 Hmem1].
    destruct (foldl_index_append (Tags post) (ID post) (tagPosts s) Hsafe Hndt)
      as [Hnd2 Hmem2]; [by intros k _|].
    unfold indexed. simpl. split_and!; [| |done|done].
    + intros user pid. rewrite Hmem1, Huser.
      destruct (decide (pid = ID post)) as [->|Hne].
      * rewrite lookup_insert_eq, Hold. naive_solver.
      * rewrite lookup_insert_ne by done. naive_solver.
    + intros tag pid. rewrite Hmem2, Htag.
      destruct (decide (pid = ID post)) as [->|Hne].
      * rewrite lookup_insert_eq, Hold. naive_solver.
      * rewrite lookup_insert_ne by done. naive_solver.
Qed.

Lemma DeletePost_indexed (postID userID : string) (s : t) :
  indexed s → indexed (DeletePost postID userID s).1.
Proof.
  intros (Huser & Htag & Hndu & Hndt). unfold DeletePost.
  destruct (posts s !! postID) as [post|] eqn:Hpost; [|done].
  destruct (decide (UserID post = userID)) as [<-|]; [|done]. simpl.
  destruct (index_remove_spec (userPosts s) (UserID post) postID Hndu)
    as [Hnd1 Hmem1].
  destruct (foldl_index_remove (Tags post) postID (tagPosts s) Hndt)
    as [Hnd2 Hmem2].
  unfold indexed. simpl. split_and!; [| |done|done].
  - intros user pid. rewrite Hmem1, Huser.
    destruct (decide (pid = postID)) as [->|Hne].
    + rewrite lookup_delete_eq, Hpost. naive_solver.
    + rewrite lookup_delete_ne by done. naive_solver.
  - intros tag pid. rewrite Hmem2, Htag.
    destruct (decide (pid = postID)) as [->|Hne].
    + rewrite lookup_delete_eq, Hpost. naive_solver.
    + rewrite lookup_delete_ne by done. naive_solver.
Qed.

(** The reaction methods write the counter map of a post and nothing else
    that the indices depend on. *)
Lemma indexed_same_data (s s' : t) :
  userPosts s' = userPosts s → tagPosts s' = tagPosts s →
  (∀ pid, (λ p, (UserID p, Tags p)) <$> posts s' !! pid
          = (λ p, (UserID p, Tags p)) <$> posts s !! pid) →
  indexed s → indexed s'.
Proof.
  intros Hu Ht Hdata (Huser & Htag & Hndu & Hndt).
  unfold indexed. rewrite Hu, Ht. split; [|split; [|by split]].
  - intros user pid. rewrite Huser. specialize (Hdata pid).
    destruct (posts s' !! pid) as [p'|], (posts s !! pid) as [p|];
      simpl in Hdata; try discriminate; [|done].
    injection Hdata as Hsame _.
    split; intros (q & [= <-] & Hq); eexists; (split; [done|]); congruence.
  - intros tag pid. rewrite Htag. specialize (Hdata pid).
    destruct (posts s' !! pid) as [p'|], (posts s !! pid) as [p|];
      simpl in Hdata; try discriminate; [|done].
    injection Hdata as _ Hsame.
    split; intros (q & [= <-] & Hq); eexists; (split; [done|]); congruence.
Qed.

Lemma SaveReaction_indexed (now : Z) (postID userID : string)
    (kind : ReactionType) (s : t) :
  indexed s → indexed (SaveReaction now postID userID kind s).1.
Proof.
  apply indexed_same_data; unfold SaveReaction;
    destruct (posts s !! postID) as [post|] eqn:Hpost; try done;
    case_bool_decide; try done;
    destruct (default ∅ (reactions s !! postID) !! userID) as [row|]; try done;
    try (destruct (decide (ReactionKind row = kind)); try done);
    intros pid; simpl;
    (destruct (decide (pid = postID)) as [->|Hne];
     [rewrite lookup_insert_eq, Hpost|rewrite lookup_insert_ne by done]; done).
Qed.

Lemma DeleteReaction_indexed (postID userID : string)
    (kind : ReactionType) (s : t) :
  indexed s → indexed (DeleteReaction postID userID kind s).1.
Proof.
  apply indexed_same_data; unfold DeleteReaction;
    destruct (posts s !! postID) as [post|] eqn:Hpost; try done;
    destruct (reactions s !! postID) as [rows|]; try done;
    destruct (rows !! userID) as [row|]; try done;
    destruct (decide (ReactionKind row = kind)); try done;
    intros pid; simpl;
    (destruct (decide (pid = postID)) as [->|Hne];
     [rewrite lookup_insert_eq, Hpost; by destruct (Reactions post)
     |by rewrite lookup_insert_ne]).
Qed.

(** In every store reached by index-safe saves and any deletes and reaction
    calls, the indices reflect the posts.  The runs are runs of calls on
    posts as values: a caller that writes to a stored object between the
    calls is a step of [index_safe_steps]. *)
Lemma index_safe_run_indexed (ops : list op) (s : t) :
  indexed s → index_safe_run s ops → indexed (run_from s ops).
Proof.
  revert s. induction ops as [|o ops IH]; intros s Hs Hsafe; [done|].
  destruct Hsafe as [Ho Hrest]. simpl. apply IH; [|done].
  destruct o as [post|pid uid|now pid uid k|pid uid k]; simpl.
  - by apply SavePost_indexed.
  - by apply DeletePost_indexed.
  - by apply SaveReaction_indexed.
  - by apply DeleteReaction_indexed.
Qed.

(** X19.  In a store whose indices reflect its posts, [DeletePost] by the
    owner leaves no index entry that names the post: its ID is in the list
    of no user and of no tag afterwards. *)
Lemma DeletePost_clears_indices (postID : string) (post : Post) (s : t) :
  indexed s → posts s !! postID = Some post →
  let s' := (DeletePost postID (UserID post) s).1 in
  (∀ user, postID ∉ index_get (userPosts s') user) ∧
  (∀ tag, postID ∉ index_get (tagPosts s') tag).
Proof.
  intros Hs Hpost s'.
  pose proof (DeletePost_indexed postID (UserID post) s Hs) as (Huser & Htag & _).
  fold s' in Huser, Htag.
  assert (posts s' !! postID = None) as Hgone.
  { unfold s', DeletePost. rewrite Hpost, decide_True by done. simpl.
    apply lookup_delete_eq. }
  split.
  - intros user. rewrite Huser, Hgone. naive_solver.
  - intros tag. rewrite Htag, Hgone. naive_solver.
Qed.

(** ** What the tag loop of [ListPosts] selects

    The candidate set under a tag filter, as the code builds it: the posts
    indexed under the first tag, together with the posts that are indexed
    under a later tag and are among the user candidates. *)

Lemma tag_pass_candidate (cands : option (gmap string bool)) (i : nat)
    (ids : list string) (acc : gmap string bool) (pid : string) :
  candidate (Some (tag_pass cands i ids acc)) pid = true
  ↔ candidate (Some acc) pid = true
    ∨ (pid ∈ ids ∧ (i = 0%nat ∨ candidate cands pid = true)).
Proof.
  unfold tag_pass. revert acc. induction ids as [|x ids IH]; intros acc; cbn [foldl].
  - rewrite elem_of_nil. tauto.
  - rewrite IH, elem_of_cons.
    destruct (bool_decide_reflect (i = 0%nat)) as [Hi|Hi]; simpl.
    + unfold candidate at 1. destruct (decide (pid = x)) as [->|Hne].
      * rewrite lookup_insert_eq. simpl. tauto.
      * rewrite lookup_insert_ne by done. fold (candidate (Some acc) pid).
        naive_solver.
    + destruct (candidate cands x) eqn:Hx.
      * unfold candidate at 1. destruct (decide (pid = x)) as [->|Hne].
        -- rewrite lookup_insert_eq. simpl. tauto.
        -- rewrite lookup_insert_ne by done. fold (candidate (Some acc) pid).
           naive_solver.
      * split; [naive_solver|].
        intros [?|[[->|?] [?|?]]]; try tauto; try lia; congruence.
Qed.

Lemma tag_loop_candidate (idx : gmap string (list string))
    (cands : option (gmap string bool)) (tags : list string) (i : nat)
    (acc : gmap string bool) (pid : string) :
  candidate (Some (tag_loop idx cands i tags acc)) pid = true
  ↔ candidate (Some acc) pid = true
    ∨ ∃ j tag, tags !! j = Some tag ∧ pid ∈ index_get idx tag
               ∧ ((i + j = 0)%nat ∨ candidate cands pid = true).
Proof.
  revert i acc. induction tags as [|tag tags IH]; intros i acc; cbn [tag_loop].
  - split; [by left|]. intros [?|(j & t & Hj & _)]; [done|].
    by rewrite lookup_nil in Hj.
  - rewrite IH, tag_pass_candidate. split.
    + intros [[?|[Hin Hok]]|(j & t & Hj & Hin & Hok)].
      * by left.
      * right. exists 0%nat, tag. split_and!; [done|done|].
        destruct Hok as [->|?]; [by left|by right].
      * right. exists (S j), t. split_and!; [done|done|].
        destruct Hok as [?|?]; [left; lia|by right].
    + intros [?|(j & t & Hj & Hin & Hok)]; [by left; left|].
      destruct j as [|j]; simpl in Hj.
      * injection Hj as ->. left. right. split; [done|].
        destruct Hok as [?|?]; [left; lia|by right].
      * right. exists j, t. split_and!; [done|done|].
        destruct Hok as [?|?]; [left; lia|by right].
Qed.

(** With at least one tag in the filter, a post is a candidate exactly when
    it is indexed under the first tag, or it is indexed under a later tag
    and listed for the user of the filter. *)
Lemma candidateIDs_tags (filter : PostFilter) (s : t) (first : string)
    (later : list string) :
  FilterTags filter = first :: later →
  ∃ c, candidateIDs filter s = Some c ∧
       ∀ pid, candidate (Some c) pid = true
              ↔ pid ∈ index_get (tagPosts s) first
                ∨ (∃ tag, tag ∈ later ∧ pid ∈ index_get (tagPosts s) tag) ∧
                  FilterUserID filter ≠ "" ∧
                  pid ∈ index_get (userPosts s) (FilterUserID filter).
Proof.
  intros Htags. unfold candidateIDs. rewrite Htags.
  rewrite bool_decide_eq_true_2 by (simpl; lia).
  eexists. split; [reflexivity|]. intros pid.
  rewrite tag_loop_candidate. unfold candidate at 1. rewrite lookup_empty. simpl.
  assert (candidate
            (if decide (FilterUserID filter = "") then None
             else Some (foldl (λ acc pid, <[pid := true]> acc) ∅
                              (index_get (userPosts s) (FilterUserID filter))))
            pid = true
          ↔ FilterUserID filter ≠ "" ∧
            pid ∈ index_get (userPosts s) (FilterUserID filter)) as Hby.
  { destruct (decide (FilterUserID filter = "")) as [Hu|Hu].
    - simpl. naive_solver.
    - rewrite mark_all_candidate. unfold candidate. rewrite lookup_empty. simpl.
      naive_solver. }
  rewrite <- Hby. split.
  - intros [?|(j & tag & Hj & Hin & Hok)]; [done|].
    destruct j as [|j]; simpl in Hj.
    + injection Hj as ->. by left.
    + right. destruct Hok as [?|Hok]; [lia|]. split; [|done].
      exists tag. split; [|done]. by eapply list_elem_of_lookup_2.
  - intros [Hin|[(tag & Htag & Hin) Hok]].
    + right. exists 0%nat, first. split_and!; [done|done|by left].
    + apply list_elem_of_lookup_1 in Htag as [j Hj].
      right. exists (S j), tag. split_and!; [done|done|by right].
Qed.

(** ** What [ListPosts] collects *)

Lemma collect_all_fold {K : Type} (filter : PostFilter) (l : list (K * Post))
    (acc : list Post) (p : Post) :
  p ∈ foldl (λ result kv, if passes filter kv.2 then result ++ [kv.2] else result)
            acc l
  ↔ p ∈ acc ∨ ∃ k, (k, p) ∈ l ∧ passes filter p = true.
Proof.
  revert acc. induction l as [|[k q] l IH]; intros acc; cbn [foldl].
  - split; [by left|]. intros [?|(k & Hin & _)]; [done|].
    by apply elem_of_nil in Hin.
  - rewrite IH. simpl. destruct (passes filter q) eqn:Hq.
    + rewrite elem_of_app, list_elem_of_singleton. split.
      * intros [[?| ->]|(k' & Hin & Hp)]; [by left| |].
        -- right. exists k. split; [apply list_elem_of_here|done].
        -- right. exists k'. split; [by apply list_elem_of_further|done].
      * intros [?|(k' & Hin & Hp)]; [by left; left|].
        apply elem_of_cons in Hin as [Heq|Hin];
          [injection Heq as -> ->; by left; right|].
        right. by exists k'.
    + split.
      * intros [?|(k' & Hin & Hp)]; [by left|].
        right. exists k'. split; [by apply list_elem_of_further|done].
      * intros [?|(k' & Hin & Hp)]; [by left|].
        apply elem_of_cons in Hin as [Heq|Hin];
          [injection Heq as -> ->; congruence|].
        right. by exists k'.
Qed.

Lemma collect_candidates_fold {V : Type} (filter : PostFilter)
    (ps : gmap string Post) (l : list (string * V)) (acc : list Post) (p : Post) :
  p ∈ foldl (λ result kv,
               match ps !! kv.1 with
               | Some post => if passes filter post then result ++ [post] else result
               | None => result
               end) acc l
  ↔ p ∈ acc ∨ ∃ pid, pid ∈ l.*1 ∧ ps !! pid = Some p ∧ passes filter p = true.
Proof.
  revert acc. induction l as [|[k v] l IH]; intros acc; cbn [foldl].
  - split; [by left|]. intros [?|(k & Hin & _)]; [done|].
    by apply elem_of_nil in Hin.
  - rewrite IH. simpl.
    destruct (ps !! k) as [q|] eqn:Hk; [destruct (passes filter q) eqn:Hq|].
    + rewrite elem_of_app, list_elem_of_singleton. split.
      * intros [[?| ->]|(pid & Hin & Hp)]; [by left| |].
        -- right. exists k. split; [apply list_elem_of_here|done].
        -- right. exists pid. split; [by apply list_elem_of_further|done].
      * intros [?|(pid & Hin & Hp & Hpass)]; [by left; left|].
        apply elem_of_cons in Hin as [->|Hin].
        -- left. right. congruence.
        -- right. by exists pid.
    + split.
      * intros [?|(pid & Hin & Hp)]; [by left|].
        right. exists pid. split; [by apply list_elem_of_further|done].
      * intros [?|(pid & Hin & Hp & Hpass)]; [by left|].
        apply elem_of_cons in Hin as [->|Hin]; [congruence|].
        right. by exists pid.
    + split.
      * intros [?|(pid & Hin & Hp)]; [by left|].
        right. exists pid. split; [by apply list_elem_of_further|done].
      * intros [?|(pid & Hin & Hp & Hpass)]; [by left|].
        apply elem_of_cons in Hin as [->|Hin]; [congruence|].
        right. by exists pid.
Qed.

Section Collect.
Context `{GoRuntime}.

(** The posts that [ListPosts] sorts and paginates: the stored posts that
    pass the visibility and time tests and, when an index was consulted,
    whose ID is a candidate. *)
Lemma collect_spec (filter : PostFilter) (s : t) (p : Post) :
  p ∈ collect filter s
  ↔ ∃ pid, posts s !! pid = Some p ∧ passes filter p = true ∧
           match candidateIDs filter s with
           | Some c => is_Some (c !! pid)
           | None => True
           end.
Proof.
  unfold collect. destruct (candidateIDs filter s) as [c|].
  - rewrite collect_candidates_fold, elem_of_nil.
    split.
    + intros [[]|(pid & Hin & Hp & Hpass)]. exists pid. split_and!; [done|done|].
      apply list_elem_of_fmap in Hin as ([k v] & -> & Hin).
      rewrite map_range_perm in Hin. apply elem_of_map_to_list in Hin. by eexists.
    + intros (pid & Hp & Hpass & [v Hv]). right. exists pid. split_and!; [|done|done].
      apply list_elem_of_fmap. exists (pid, v). split; [done|].
      rewrite map_range_perm. by apply elem_of_map_to_list.
  - rewrite collect_all_fold, elem_of_nil. split.
    + intros [[]|(pid & Hin & Hpass)]. exists pid. split_and!; [|done|done].
      rewrite map_range_perm in Hin. by apply elem_of_map_to_list in Hin.
    + intros (pid & Hp & Hpass & _). right. exists pid. split; [|done].
      rewrite map_range_perm. by apply elem_of_map_to_list.
Qed.

End Collect.

(** * Further properties of the store and the manager *)

(** ** Saving, reading and deleting posts *)

(** X1.  [SavePost] never fails, and the post it was given is what [GetPost]
    returns for its ID right after; the posts under the other IDs read as
    before, and the reaction ledgers are not touched, whether the post is
    new or replaces a stored one. *)
Theorem SavePost_then_GetPost (post : Post) (s : t) :
  (SavePost post s).2 = None ∧
  GetPost (ID post) (SavePost post s).1 = Ok post ∧
  (∀ other, other ≠ ID post →
     GetPost other (SavePost post s).1 = GetPost other s) ∧
  reactions (SavePost post s).1 = reactions s.
Proof.
  destruct (SavePost_posts post s) as [Hposts Hreact].
  split_and!.
  - unfold SavePost. by destruct (posts s !! ID post).
  - unfold GetPost. by rewrite Hposts, lookup_insert_eq.
  - intros other Hne. unfold GetPost. by rewrite Hposts, lookup_insert_ne.
  - exact Hreact.
Qed.

(** X2.  [DeletePost] refuses in exactly two cases, with one error each:
    [ErrPostNotFound] when no post is stored under the ID, and
    [ErrPermissionDenied] when the stored post has another owner.  Whenever
    it returns an error the store is left exactly as it was. *)
Theorem DeletePost_refusals (postID userID : string) (s : t) :
  ((DeletePost postID userID s).2 = Some ErrPostNotFound
   ↔ posts s !! postID = None) ∧
  ((DeletePost postID userID s).2 = Some ErrPermissionDenied
   ↔ ∃ post, posts s !! postID = Some post ∧ UserID post ≠ userID) ∧
  ((DeletePost postID userID s).2 = None
   ↔ ∃ post, posts s !! postID = Some post ∧ UserID post = userID) ∧
  (∀ err, (DeletePost postID userID s).2 = Some err →
          (DeletePost postID userID s).1 = s).
Proof.
  unfold DeletePost. destruct (posts s !! postID) as [post|] eqn:Hpost.
  - destruct (decide (UserID post = userID)) as [Heq|Hne]; simpl.
    + split_and!; [naive_solver|naive_solver| |done].
      split; [by eexists|done].
    + split_and!; [naive_solver| |naive_solver|done].
      split; [by eexists|done].
  - simpl. split_and!; naive_solver.
Qed.

(** X3.  When the owner deletes a stored post, the call succeeds; afterwards
    every read of that ID ([GetPost], [GetUserReaction],
    [GetReactionCounts]) returns [ErrPostNotFound] and the post has no
    ledger, while every other post and every other ledger is as before. *)
Theorem DeletePost_by_owner (postID : string) (post : Post) (s : t) :
  posts s !! postID = Some post →
  let s' := (DeletePost postID (UserID post) s).1 in
  (DeletePost postID (UserID post) s).2 = None ∧
  GetPost postID s' = Fail ErrPostNotFound ∧
  (∀ user, GetUserReaction postID user s' = Fail ErrPostNotFound) ∧
  GetReactionCounts postID s' = Fail ErrPostNotFound ∧
  ledger s' postID = ∅ ∧
  (∀ other, other ≠ postID →
     GetPost other s' = GetPost other s ∧ ledger s' other = ledger s other).
Proof.
  intros Hpost s'. unfold s', DeletePost, GetPost, GetUserReaction,
    GetReactionCounts, ledger.
  rewrite Hpost, decide_True by done. simpl.
  rewrite !lookup_delete_eq. split_and!; [done..|].
  intros other Hne. by rewrite !lookup_delete_ne.
Qed.

Lemma DeletePost_by_owner_witness :
  let s := run [OpSavePost (sample_post "p1" "u1" ["go"] 1);
                OpSavePost (sample_post "p2" "u2" ["go"] 2);
                OpSaveReaction 5 "p1" "u2" ReactionLike] in
  posts s !! "p1" = Some (with_Reactions (Some {[ReactionLike := 1]})
                            (sample_post "p1" "u1" ["go"] 1)) ∧
  GetPost "p1" (DeletePost "p1" "u1" s).1 = Fail ErrPostNotFound ∧
  GetPost "p2" (DeletePost "p1" "u1" s).1 = GetPost "p2" s.
Proof.
  intros s.
  assert (posts s !! "p1" = Some (with_Reactions (Some {[ReactionLike := 1]})
                                    (sample_post "p1" "u1" ["go"] 1))) as Hpost
    by (vm_compute; reflexivity).
  destruct (DeletePost_by_owner "p1" _ s Hpost) as (_ & Hget & _ & _ & _ & Hother).
  split_and!; [exact Hpost|exact Hget|].
  apply (Hother "p2"). discriminate.
Defined.

(** ** Reactions: saving, reading back, deleting *)

Lemma GetUserReaction_ledger (postID userID : string) (post : Post) (s : t) :
  posts s !! postID = Some post →
  GetUserReaction postID userID s = Ok (ReactionKind <$> ledger s postID !! userID).
Proof.
  intros Hpost. unfold GetUserReaction, ledger. rewrite Hpost.
  destruct (reactions s !! postID); simpl; [done|]. by rewrite lookup_empty.
Qed.

(** The shape of the store after a [SaveReaction] that is not refused. *)
Lemma SaveReaction_effect (now : Z) (postID userID : string)
    (kind : ReactionType) (s : t) (post : Post) :
  posts s !! postID = Some post → 1 <= kind <= 6 →
  (SaveReaction now postID userID kind s).2 = None ∧
  ∃ post' row',
    ReactionKind row' = kind ∧
    with_Reactions None post' = with_Reactions None post ∧
    posts (SaveReaction now postID userID kind s).1 = <[postID := post']> (posts s) ∧
    reactions (SaveReaction now postID userID kind s).1
    = <[postID := <[userID := row']> (ledger s postID)]> (reactions s) ∧
    userPosts (SaveReaction now postID userID kind s).1 = userPosts s ∧
    tagPosts (SaveReaction now postID userID kind s).1 = tagPosts s.
Proof.
  intros Hpost Hkind. unfold SaveReaction, ledger. rewrite Hpost.
  rewrite bool_decide_eq_false_2 by (unfold ReactionNone, ReactionAngry; lia).
  destruct (default ∅ (reactions s !! postID) !! userID) as [row|] eqn:Hrow.
  - destruct (decide (ReactionKind row = kind)) as [Hsame|Hdiff]; simpl.
    + split; [done|]. exists post, row. split_and!; try done.
      * by rewrite insert_id.
      * by rewrite (insert_id _ userID row).
    + split; [done|].
      exists (with_Reactions
                (Some (bump kind (drop_one (ReactionKind row) (counters post)))) post),
             {| ReactorID := ReactorID row; ReactionKind := kind; ReactedAt := now |}.
      by split_and!.
  - simpl. split; [done|].
    exists (with_Reactions (Some (bump kind (counters post))) post),
           {| ReactorID := userID; ReactionKind := kind; ReactedAt := now |}.
    by split_and!.
Qed.

(** X4.  After a [SaveReaction] with a valid kind on a stored post, which
    always succeeds, [GetUserReaction] returns that kind for that user,
    whether the user had no reaction, the same one or another one before.
    The reactions of the other users on the post, and all reactions on other
    posts, read as before. *)
Theorem SaveReaction_then_GetUserReaction (now : Z) (postID userID : string)
    (kind : ReactionType) (s : t) :
  is_Some (posts s !! postID) → 1 <= kind <= 6 →
  let s' := (SaveReaction now postID userID kind s).1 in
  (SaveReaction now postID userID kind s).2 = None ∧
  GetUserReaction postID userID s' = Ok (Some kind) ∧
  (∀ other, other ≠ userID →
     GetUserReaction postID other s' = GetUserReaction postID other s) ∧
  (∀ postID' user, postID' ≠ postID →
     GetUserReaction postID' user s' = GetUserReaction postID' user s).
Proof.
  intros [post Hpost] Hkind s'.
  destruct (SaveReaction_effect now postID userID kind s post Hpost Hkind)
    as (Herr & post' & row' & Hrow' & _ & Hposts & Hreact & _).
  fold s' in Hposts, Hreact.
  assert (posts s' !! postID = Some post') as Hpost'
    by (rewrite Hposts; apply lookup_insert_eq).
  assert (ledger s' postID = <[userID := row']> (ledger s postID)) as Hledger
    by (unfold ledger at 1; rewrite Hreact, lookup_insert_eq; done).
  split_and!.
  - exact Herr.
  - rewrite (GetUserReaction_ledger _ _ post' s' Hpost'), Hledger.
    by rewrite lookup_insert_eq, <- Hrow'.
  - intros other Hne.
    rewrite (GetUserReaction_ledger _ _ post' s' Hpost'), Hledger.
    rewrite (GetUserReaction_ledger _ _ post s Hpost).
    by rewrite lookup_insert_ne.
  - intros postID' user Hne. unfold GetUserReaction.
    by rewrite Hposts, Hreact, !lookup_insert_ne.
Qed.

Lemma SaveReaction_then_GetUserReaction_witness :
  let s := run [OpSavePost (sample_post "p1" "u1" ["go"] 1);
                OpSaveReaction 5 "p1" "u2" ReactionLike] in
  is_Some (posts s !! "p1") ∧ 1 <= ReactionWow <= 6 ∧
  GetUserReaction "p1" "u2" (SaveReaction 6 "p1" "u2" ReactionWow s).1
  = Ok (Some ReactionWow).
Proof.
  intros s.
  assert (is_Some (posts s !! "p1")) as Hpost by (vm_compute; by eexists).
  assert (1 <= ReactionWow <= 6) as Hkind by (unfold ReactionWow; lia).
  destruct (SaveReaction_then_GetUserReaction 6 "p1" "u2" ReactionWow s Hpost Hkind)
    as (_ & Hget & _).
  split; [exact Hpost|split; [exact Hkind|exact Hget]].
Defined.

Lemma SaveReaction_same (now : Z) (postID userID : string) (kind : ReactionType)
    (s : t) (post : Post) (rows : gmap string UserReaction) (row : UserReaction) :
  posts s !! postID = Some post → 1 <= kind <= 6 →
  reactions s !! postID = Some rows → rows !! userID = Some row →
  ReactionKind row = kind →
  SaveReaction now postID userID kind s = (s, None).
Proof.
  intros Hpost Hkind Hrows Hrow Hsame. unfold SaveReaction. rewrite Hpost.
  rewrite bool_decide_eq_false_2 by (unfold ReactionNone, ReactionAngry; lia).
  rewrite Hrows. simpl. rewrite Hrow, decide_True by done.
  rewrite insert_id by done. by destruct s.
Qed.

(** X5.  [SaveReaction] is idempotent: once a user's reaction of a valid
    kind has been saved on a stored post, saving the same kind again, at
    whatever time, succeeds and leaves the whole store as it is; neither a
    count nor the time of the reaction changes. *)
Theorem SaveReaction_idempotent (now later : Z) (postID userID : string)
    (kind : ReactionType) (s : t) :
  is_Some (posts s !! postID) → 1 <= kind <= 6 →
  SaveReaction later postID userID kind (SaveReaction now postID userID kind s).1
  = ((SaveReaction now postID userID kind s).1, None).
Proof.
  intros [post Hpost] Hkind.
  destruct (SaveReaction_effect now postID userID kind s post Hpost Hkind)
    as (_ & post' & row' & Hrow' & _ & Hposts & Hreact & _).
  apply (SaveReaction_same later postID userID kind _ post'
           (<[userID := row']> (ledger s postID)) row'); [|done| | |done].
  - rewrite Hposts. apply lookup_insert_eq.
  - rewrite Hreact. apply lookup_insert_eq.
  - apply lookup_insert_eq.
Qed.

Lemma SaveReaction_idempotent_witness :
  let s := run [OpSavePost (sample_post "p1" "u1" ["go"] 1)] in
  let s1 := (SaveReaction 5 "p1" "u2" ReactionSad s).1 in
  is_Some (posts s !! "p1") ∧ 1 <= ReactionSad <= 6 ∧
  SaveReaction 9 "p1" "u2" ReactionSad s1 = (s1, None) ∧
  reacted_at (ledger s1 "p1") "u2" = 5.
Proof.
  intros s s1.
  assert (is_Some (posts s !! "p1")) as Hpost by (vm_compute; by eexists).
  assert (1 <= ReactionSad <= 6) as Hkind by (unfold ReactionSad; lia).
  split; [exact Hpost|split; [exact Hkind|split; [|vm_compute; reflexivity]]].
  exact (SaveReaction_idempotent 5 9 "p1" "u2" ReactionSad s Hpost Hkind).
Defined.

Lemma SaveReaction_first_unfold (now : Z) (postID userID : string)
    (kind : ReactionType) (s : t) (post : Post) :
  posts s !! postID = Some post → 1 <= kind <= 6 →
  ledger s postID !! userID = None →
  SaveReaction now postID userID kind s
  = ({| posts :=
          <[postID := with_Reactions (Some (bump kind (counters post))) post]> (posts s);
        reactions :=
          <[postID := <[userID := {| ReactorID := userID; ReactionKind := kind;
                                     ReactedAt := now |}]> (ledger s postID)]>
            (reactions s);
        userPosts := userPosts s;
        tagPosts := tagPosts s |}, None).
Proof.
  intros Hpost Hkind Hrow. unfold SaveReaction, ledger in *. rewrite Hpost.
  rewrite bool_decide_eq_false_2 by (unfold ReactionNone, ReactionAngry; lia).
  simpl. by rewrite Hrow.
Qed.

Lemma DeleteReaction_match_unfold (postID userID : string) (kind : ReactionType)
    (s : t) (post : Post) (row : UserReaction) :
  posts s !! postID = Some post →
  ledger s postID !! userID = Some row → ReactionKind row = kind →
  DeleteReaction postID userID kind s
  = ({| posts :=
          <[postID := match Reactions post with
                      | Some c => with_Reactions (Some (drop_one kind c)) post
                      | None => post
                      end]> (posts s);
        reactions := <[postID := delete userID (ledger s postID)]> (reactions s);
        userPosts := userPosts s;
        tagPosts := tagPosts s |}, None).
Proof.
  intros Hpost Hrow Hkind. unfold DeleteReaction, ledger in *. rewrite Hpost.
  destruct (reactions s !! postID) as [rows|]; simpl in *;
    [|by rewrite lookup_empty in Hrow].
  by rewrite Hrow, decide_True.
Qed.

(** X6.  The first reaction of a user on a stored post: when the user has no
    row in the ledger of the post and the count of the kind is an [int]
    below the largest one, a [SaveReaction] of a valid kind raises the count
    of that kind by exactly one, leaves the counts of the other kinds as they
    were, and adds one row to the ledger, carrying the user, the kind and the
    time of the call. *)
Theorem SaveReaction_first (now : Z) (postID userID : string)
    (kind : ReactionType) (s : t) (post : Post) :
  posts s !! postID = Some post → 1 <= kind <= 6 →
  ledger s postID !! userID = None →
  min_int <= count_of (Reactions post) kind < max_int →
  let s' := (SaveReaction now postID userID kind s).1 in
  ∃ post',
    posts s' !! postID = Some post' ∧
    count_of (Reactions post') kind = count_of (Reactions post) kind + 1 ∧
    (∀ other, other ≠ kind →
       count_of (Reactions post') other = count_of (Reactions post) other) ∧
    ledger s' postID !! userID
    = Some {| ReactorID := userID; ReactionKind := kind; ReactedAt := now |} ∧
    size (ledger s' postID) = S (size (ledger s postID)).
Proof.
  intros Hpost Hkind Hrow Hcount s'. subst s'.
  rewrite (SaveReaction_first_unfold now postID userID kind s post Hpost Hkind Hrow).
  simpl. eexists. split; [apply lookup_insert_eq|]. simpl. split_and!.
  - rewrite count_bump, decide_True, count_counters by done.
    apply int_add_small. unfold int_range. lia.
  - intros other Hne. by rewrite count_bump, decide_False, count_counters.
  - unfold ledger at 1. simpl. rewrite lookup_insert_eq. simpl.
    apply lookup_insert_eq.
  - unfold ledger at 1. simpl. rewrite lookup_insert_eq. simpl.
    by rewrite map_size_insert_None.
Qed.

Lemma SaveReaction_first_witness :
  let s := run [OpSavePost (sample_post "p1" "u1" ["go"] 1);
                OpSaveReaction 5 "p1" "u2" ReactionLike] in
  let s' := (SaveReaction 7 "p1" "u3" ReactionLike s).1 in
  ∃ post post',
    posts s !! "p1" = Some post ∧ posts s' !! "p1" = Some post' ∧
    count_of (Reactions post) ReactionLike = 1 ∧
    count_of (Reactions post') ReactionLike = 2 ∧
    size (ledger s' "p1") = 2%nat.
Proof.
  intros s s'. subst s'.
  destruct (posts s !! "p1") as [post|] eqn:Hpost; [|by vm_compute in Hpost].
  assert (count_of (Reactions post) ReactionLike = 1) as Hone
    by (vm_compute in Hpost; injection Hpost as <-; reflexivity).
  destruct (SaveReaction_first 7 "p1" "u3" ReactionLike s post Hpost)
    as (post' & Hpost' & Hup & _ & _ & Hsize).
  - unfold ReactionLike. lia.
  - vm_compute. reflexivity.
  - rewrite Hone. unfold min_int, max_int. lia.
  - exists post, post'. split; [reflexivity|]. split; [exact Hpost'|].
    split; [exact Hone|]. split; [by rewrite Hup, Hone|].
    rewrite Hsize. vm_compute. reflexivity.
Defined.

(** X7.  [DeleteReaction] fails exactly when the post is not stored, and
    then with [ErrPostNotFound].  It changes the store exactly when the post
    is stored and the ledger holds a reaction of the user of exactly the
    given kind: without a ledger, without a row of the user, or with a row
    of another kind it returns nil and leaves everything as it is. *)
Theorem DeleteReaction_changes_iff (postID userID : string)
    (kind : ReactionType) (s : t) :
  ((DeleteReaction postID userID kind s).2 = Some ErrPostNotFound
   ↔ posts s !! postID = None) ∧
  ((DeleteReaction postID userID kind s).2 = None ↔ is_Some (posts s !! postID)) ∧
  ((DeleteReaction postID userID kind s).1 ≠ s
   ↔ is_Some (posts s !! postID) ∧
     ReactionKind <$> ledger s postID !! userID = Some kind).
Proof.
  unfold DeleteReaction, ledger.
  destruct (posts s !! postID) as [post|] eqn:Hpost; simpl.
  { destruct (reactions s !! postID) as [rows|] eqn:Hrows; simpl.
    - destruct (rows !! userID) as [row|] eqn:Hrow; simpl.
      + destruct (decide (ReactionKind row = kind)) as [Hsame|Hdiff]; simpl.
        * split_and!; split; try done.
          -- intros _. split; [done|by rewrite Hsame].
          -- intros _ Heq.
             apply (f_equal (λ st, reactions st !! postID ≫= (.!! userID))) in Heq.
             simpl in Heq. rewrite lookup_insert_eq, Hrows in Heq. simpl in Heq.
             by rewrite lookup_delete_eq, Hrow in Heq.
        * split_and!; split; try done. intros [_ Heq]. congruence.
      + split_and!; split; try done. by intros [_ ?].
    - split_and!; split; try done. intros [_ Heq]. by rewrite lookup_empty in Heq. }
  split_and!; split; try done; by intros [[? ?] _].
Qed.

(** X8.  Removing a reaction: when the ledger of a stored post holds a
    reaction of the user of the given kind, [DeleteReaction] succeeds, the
    user has no reaction on the post afterwards ([GetUserReaction] returns
    nil, nil), the rows of the other users stay, the count of the kind goes
    down by one when it was positive and stays when it was not, and the
    counts of the other kinds are untouched. *)
Theorem DeleteReaction_removes (postID userID : string) (kind : ReactionType)
    (s : t) (post : Post) (row : UserReaction) :
  posts s !! postID = Some post →
  ledger s postID !! userID = Some row → ReactionKind row = kind →
  count_of (Reactions post) kind <= max_int →
  let s' := (DeleteReaction postID userID kind s).1 in
  (DeleteReaction postID userID kind s).2 = None ∧
  GetUserReaction postID userID s' = Ok None ∧
  ledger s' postID = delete userID (ledger s postID) ∧
  ∃ post',
    posts s' !! postID = Some post' ∧
    count_of (Reactions post') kind
    = (if bool_decide (count_of (Reactions post) kind > 0)
       then count_of (Reactions post) kind - 1
       else count_of (Reactions post) kind) ∧
    (∀ other, other ≠ kind →
       count_of (Reactions post') other = count_of (Reactions post) other).
Proof.
  intros Hpost Hrow Hkind Hcount s'. subst s'.
  rewrite (DeleteReaction_match_unfold postID userID kind s post row Hpost Hrow Hkind).
  simpl.
  assert (∀ p' r', ledger {| posts := p'; reactions := <[postID := delete userID (ledger s postID)]> r';
                            userPosts := userPosts s; tagPosts := tagPosts s |} postID
                   = delete userID (ledger s postID)) as Hledger
    by (intros; unfold ledger at 1; simpl; by rewrite lookup_insert_eq).
  split_and!; [done| |apply Hledger|].
  - erewrite GetUserReaction_ledger by (simpl; apply lookup_insert_eq).
    by rewrite Hledger, lookup_delete_eq.
  - eexists. split; [apply lookup_insert_eq|].
    destruct (Reactions post) as [c|] eqn:Hc; simpl.
    + split.
      * rewrite count_drop_one, decide_True by done.
        case_bool_decide; [|done].
        apply int_sub_small. unfold int_range, min_int, max_int in *. lia.
      * intros other Hne. by rewrite count_drop_one, decide_False.
    + rewrite Hc. split; [|done]. by unfold count_of.
Qed.

Lemma DeleteReaction_removes_witness :
  let s := run [OpSavePost (sample_post "p1" "u1" ["go"] 1);
                OpSaveReaction 5 "p1" "u2" ReactionLike;
                OpSaveReaction 6 "p1" "u3" ReactionLike] in
  let s' := (DeleteReaction "p1" "u2" ReactionLike s).1 in
  GetUserReaction "p1" "u2" s = Ok (Some ReactionLike) ∧
  GetUserReaction "p1" "u2" s' = Ok None ∧
  GetUserReaction "p1" "u3" s' = Ok (Some ReactionLike) ∧
  ∃ post', posts s' !! "p1" = Some post' ∧
           count_of (Reactions post') ReactionLike = 1.
Proof.
  intros s s'. subst s'.
  destruct (posts s !! "p1") as [post|] eqn:Hpost; [|by vm_compute in Hpost].
  assert (count_of (Reactions post) ReactionLike = 2) as Htwo
    by (vm_compute in Hpost; injection Hpost as <-; reflexivity).
  destruct (DeleteReaction_removes "p1" "u2" ReactionLike s post
              {| ReactorID := "u2"; ReactionKind := ReactionLike; ReactedAt := 5 |} Hpost)
    as (_ & Hget & _ & post' & Hpost' & Hdown & _).
  - vm_compute. reflexivity.
  - reflexivity.
  - rewrite Htwo. unfold max_int. lia.
  - split; [vm_compute; reflexivity|]. split; [exact Hget|].
    split; [vm_compute; reflexivity|].
    exists post'. split; [exact Hpost'|]. rewrite Hdown, Htwo. reflexivity.
Defined.

Lemma ledger_mkStore (p : gmap string Post) (r : gmap string (gmap string UserReaction))
    (u tg : gmap string (list string)) (postID : string) :
  ledger {| posts := p; reactions := r; userPosts := u; tagPosts := tg |} postID
  = default ∅ (r !! postID).
Proof. reflexivity. Qed.

(** X9.  A first reaction that is saved and then deleted, on a stored post
    with a counter map of its own, for a valid kind, a user without a row
    and a count of the kind between 0 and the largest [int].  Afterwards the
    rows of every ledger, every count of the post (a kind without an entry
    counting as 0), every other field of the post, every other post and
    both indices are as before the two calls.  The store is not the same,
    though: the counter map of the post now has an entry for the kind, with
    the count it had and with 0 if it had none (and a nil map has become a
    map), so that [GetReactionCounts] may report a kind with 0 that it did
    not report before; and the post has a ledger, which is empty if it had
    none. *)
Theorem SaveReaction_then_DeleteReaction (now : Z) (postID userID : string)
    (kind : ReactionType) (s : t) (post : Post) :
  posts s !! postID = Some post → 1 <= kind <= 6 →
  ledger s postID !! userID = None →
  0 <= count_of (Reactions post) kind < max_int →
  let s2 := (DeleteReaction postID userID kind
               (SaveReaction now postID userID kind s).1).1 in
  (∀ other, ledger s2 other = ledger s other) ∧
  (∀ other, other ≠ postID → posts s2 !! other = posts s !! other) ∧
  userPosts s2 = userPosts s ∧ tagPosts s2 = tagPosts s ∧
  reactions s2 = <[postID := ledger s postID]> (reactions s) ∧
  GetReactionCounts postID s2
  = Ok (<[kind := count_of (Reactions post) kind]> (counters post)) ∧
  ∃ post2,
    posts s2 !! postID = Some post2 ∧
    with_Reactions None post2 = with_Reactions None post ∧
    Reactions post2
    = Some (<[kind := count_of (Reactions post) kind]> (counters post)) ∧
    ∀ k, count_of (Reactions post2) k = count_of (Reactions post) k.
Proof.
  intros Hpost Hkind Hrow Hcount s2. subst s2.
  rewrite (SaveReaction_first_unfold now postID userID kind s post Hpost Hkind Hrow).
  simpl.
  erewrite (DeleteReaction_match_unfold postID userID kind _ _
              {| ReactorID := userID; ReactionKind := kind; ReactedAt := now |});
    [|simpl; apply lookup_insert_eq
     |unfold ledger at 1; simpl; rewrite lookup_insert_eq; simpl; apply lookup_insert_eq
     |done].
  simpl.
  assert (drop_one kind (bump kind (counters post))
          = <[kind := count_of (Reactions post) kind]> (counters post)) as Hmap.
  { rewrite <- count_counters. unfold drop_one, bump, count_of.
    rewrite lookup_insert_eq. simpl.
    rewrite <- (count_counters post kind) in Hcount. unfold count_of in Hcount.
    assert (int_add (default 0 (counters post !! kind)) 1
            = default 0 (counters post !! kind) + 1) as ->
      by (apply int_add_small; unfold int_range, min_int, max_int in *; lia).
    rewrite bool_decide_eq_true_2 by lia.
    rewrite int_sub_small by (unfold int_range, min_int, max_int in *; lia).
    rewrite insert_insert_eq. f_equal. lia. }
  split_and!; try done.
  - intros other. destruct (decide (other = postID)) as [->|Hne].
    + rewrite !ledger_mkStore, !lookup_insert_eq. simpl.
      by rewrite delete_insert_id.
    + by rewrite ledger_mkStore, !lookup_insert_ne.
  - intros other Hne. by rewrite !lookup_insert_ne.
  - rewrite ledger_mkStore, lookup_insert_eq. simpl.
    by rewrite delete_insert_id, insert_insert_eq.
  - unfold GetReactionCounts. simpl. rewrite lookup_insert_eq.
    unfold counters at 1. simpl. by rewrite Hmap.
  - eexists. split; [apply lookup_insert_eq|]. simpl. split; [done|].
    rewrite Hmap. split; [done|].
    intros k. change (count_of (Some ?m) k) with (default 0 (m !! k)).
    destruct (decide (k = kind)) as [->|Hne].
    + by rewrite lookup_insert_eq.
    + rewrite lookup_insert_ne by done. apply (count_counters post k).
Qed.

Lemma SaveReaction_then_DeleteReaction_witness :
  let s := run [OpSavePost (sample_post "p1" "u1" ["go"] 1)] in
  let s2 := (DeleteReaction "p1" "u3" ReactionLike
               (SaveReaction 7 "p1" "u3" ReactionLike s).1).1 in
  ledger s2 "p1" = ledger s "p1" ∧
  GetReactionCounts "p1" s = Ok ∅ ∧
  GetReactionCounts "p1" s2 = Ok {[ReactionLike := 0]} ∧
  reactions s !! "p1" = None ∧ reactions s2 !! "p1" = Some ∅.
Proof.
  intros s s2. subst s2.
  destruct (posts s !! "p1") as [post|] eqn:Hpost; [|by vm_compute in Hpost].
  assert (post = sample_post "p1" "u1" ["go"] 1) as ->
    by (vm_compute in Hpost; injection Hpost as <-; reflexivity).
  destruct (SaveReaction_then_DeleteReaction 7 "p1" "u3" ReactionLike s _ Hpost)
    as (Hledger & _ & _ & _ & Hreact & Hcounts & _).
  - unfold ReactionLike. lia.
  - vm_compute. reflexivity.
  - vm_compute. split; [discriminate|reflexivity].
  - split; [apply Hledger|]. split; [vm_compute; reflexivity|].
    split; [rewrite Hcounts; reflexivity|]. split; [vm_compute; reflexivity|].
    rewrite Hreact, lookup_insert_eq. reflexivity.
Defined.

Lemma reaction_frame_refl (postID userID : string) (s : t) :
  reaction_frame postID userID s s.
Proof. by unfold reaction_frame. Qed.

(** X10.  What the two reaction calls leave alone, on every store in which
    each post has a counter map of its own (no map is shared between two
    stored posts), and for every argument, refused or not: neither index
    changes, no post appears or disappears, no field of any post other than
    its counts changes, and the posts and ledgers other than the one named,
    and in its ledger the rows of the other users, are the same
    afterwards. *)
Theorem reaction_calls_frame (now : Z) (postID userID : string)
    (kind : ReactionType) (s : t) :
  reaction_frame postID userID s (SaveReaction now postID userID kind s).1 ∧
  reaction_frame postID userID s (DeleteReaction postID userID kind s).1.
Proof.
  split.
  - destruct (posts s !! postID) as [post|] eqn:Hpost.
    2: { unfold SaveReaction. rewrite Hpost. apply reaction_frame_refl. }
    destruct (decide (1 <= kind <= 6)) as [Hkind|Hkind].
    2: { unfold SaveReaction. rewrite Hpost.
         rewrite bool_decide_eq_true_2 by (unfold ReactionNone, ReactionAngry; lia).
         apply reaction_frame_refl. }
    destruct (SaveReaction_effect now postID userID kind s post Hpost Hkind)
      as (_ & post' & row' & _ & Hsame & Hposts & Hreact & Huser & Htag).
    unfold reaction_frame. split_and!; try done.
    + intros other. rewrite Hposts. destruct (decide (other = postID)) as [->|Hne].
      * rewrite lookup_insert_eq, Hpost. simpl. by rewrite Hsame.
      * by rewrite lookup_insert_ne.
    + intros other Hne. unfold ledger. by rewrite Hposts, Hreact, !lookup_insert_ne.
    + intros user Hne. unfold ledger at 1. rewrite Hreact, lookup_insert_eq. simpl.
      by rewrite lookup_insert_ne.
  - destruct (posts s !! postID) as [post|] eqn:Hpost.
    2: { unfold DeleteReaction. rewrite Hpost. apply reaction_frame_refl. }
    destruct (ledger s postID !! userID) as [row|] eqn:Hrow.
    2: { unfold DeleteReaction, ledger in *. rewrite Hpost.
         destruct (reactions s !! postID) as [rows|]; simpl in *;
           [rewrite Hrow|]; apply reaction_frame_refl. }
    destruct (decide (ReactionKind row = kind)) as [Hkind|Hkind].
    2: { unfold DeleteReaction, ledger in *. rewrite Hpost.
         destruct (reactions s !! postID) as [rows|]; simpl in *;
           [rewrite Hrow, decide_False by done|]; apply reaction_frame_refl. }
    rewrite (DeleteReaction_match_unfold postID userID kind s post row Hpost Hrow Hkind).
    unfold reaction_frame. simpl. split_and!; try done.
    + intros other. destruct (decide (other = postID)) as [->|Hne].
      * rewrite lookup_insert_eq, Hpost. simpl. by destruct (Reactions post) eqn:Hc;
          [|rewrite <- Hc; destruct post].
      * by rewrite lookup_insert_ne.
    + intros other Hne. unfold ledger. simpl. by rewrite !lookup_insert_ne.
    + intros user Hne. unfold ledger at 1. simpl. rewrite lookup_insert_eq. simpl.
      by rewrite lookup_delete_ne.
Qed.

(** ** Who reacted, and the feed *)

Lemma foldl_snoc_keys {K V : Type} (f : V → bool) (l : list (K * V))
    (acc : list K) :
  foldl (λ acc kv, if f kv.2 then acc ++ [kv.1] else acc) acc l
  = acc ++ (filter (λ kv, f kv.2 = true) l).*1.
Proof.
  revert acc. induction l as [|[k v] l IH]; intros acc; simpl.
  - by rewrite app_nil_r.
  - rewrite IH. destruct (f v) eqn:Hf.
    + rewrite filter_cons_True by done. simpl. by rewrite <- app_assoc.
    + rewrite filter_cons_False; [done|]. simpl. by rewrite Hf.
Qed.

Lemma NoDup_fst_filter_map_to_list {V : Type} (P : string * V → Prop)
    `{∀ x, Decision (P x)} (rows : gmap string V) :
  NoDup (filter P (map_to_list rows)).*1.
Proof.
  apply (sublist_NoDup _ (map_to_list rows).*1); [apply NoDup_fst_map_to_list|].
  apply fmap_sublist, sublist_filter.
Qed.

Lemma kind_rows_length (k : ReactionType) (rows : gmap string UserReaction) :
  kind_rows k rows
  = length (filter (λ kv, reacted_with (Some k) kv.2) (map_to_list rows)).
Proof.
  unfold kind_rows. rewrite map_filter_alt.
  rewrite map_size_list_to_map by apply NoDup_fst_filter_map_to_list.
  f_equal; by apply list_filter_iff.
Qed.

Section ReactedUsers.
Context `{GoRuntime}.

(** The list that [GetReactedUsers] paginates, for a post with ledger
    [rows]. *)
Lemma GetReactedUsers_ranked (kind : option ReactionType)
    (rows : gmap string UserReaction) :
  ∃ ranked,
    (∀ postID limit offset s post,
       posts s !! postID = Some post → reactions s !! postID = Some rows →
       GetReactedUsers postID kind limit offset s
       = Ok <$> paginate limit offset ranked) ∧
    ranked ≡ₚ (filter (λ kv, reacted_with kind kv.2) (map_to_list rows)).*1 ∧
    StronglySorted (λ a b, reacted_at rows a >= reacted_at rows b) ranked.
Proof.
  set (keep := λ row : UserReaction,
         match kind with
         | None => true
         | Some k => bool_decide (ReactionKind row = k)
         end).
  exists (sort_Slice (λ a b, bool_decide (reacted_at rows a > reacted_at rows b))
            (foldl (λ acc kv, if keep kv.2 then acc ++ [kv.1] else acc)
                   [] (map_range rows))).
  split_and!.
  - intros postID limit offset s post Hpost Hrows. unfold GetReactedUsers.
    by rewrite Hpost, Hrows.
  - rewrite sort_Slice_perm, foldl_snoc_keys. simpl.
    rewrite map_range_perm. apply eq_reflexive_perm. f_equal.
    apply list_filter_iff. intros [u row]. unfold keep, reacted_with. simpl.
    destruct kind; [apply bool_decide_eq_true|done].
  - by apply sort_Slice_descending.
Qed.

(** X11.  [GetReactedUsers] fails with [ErrPostNotFound] for a post that is
    not stored and returns the empty list for a stored post without a
    ledger.  Otherwise it paginates a list that names each user once, names
    exactly the users whose row in the ledger of the post passes the kind
    test (every row for a nil kind), and is ordered by the time of the
    reaction, latest first. *)
Theorem GetReactedUsers_spec (postID : string) (kind : option ReactionType)
    (limit offset : Z) (s : t) :
  ∃ ranked,
    NoDup ranked ∧
    (∀ user, user ∈ ranked
             ↔ ∃ row, ledger s postID !! user = Some row ∧ reacted_with kind row) ∧
    StronglySorted (λ a b, reacted_at (ledger s postID) a
                           >= reacted_at (ledger s postID) b) ranked ∧
    GetReactedUsers postID kind limit offset s
    = match posts s !! postID, reactions s !! postID with
      | None, _ => Some (Fail ErrPostNotFound)
      | Some _, None => Some (Ok [])
      | Some _, Some _ => Ok <$> paginate limit offset ranked
      end.
Proof.
  destruct (GetReactedUsers_ranked kind (ledger s postID))
    as (ranked & Hcall & Hperm & Hsorted).
  exists ranked. split_and!.
  - rewrite Hperm. apply NoDup_fst_filter_map_to_list.
  - intros user. rewrite Hperm, list_elem_of_fmap. split.
    + intros ([u row] & -> & [Hkeep Hin%elem_of_map_to_list]%list_elem_of_filter).
      by exists row.
    + intros (row & Hrow & Hkeep). exists (user, row). split; [done|].
      apply list_elem_of_filter. split; [done|]. by apply elem_of_map_to_list.
  - exact Hsorted.
  - destruct (posts s !! postID) as [post|] eqn:Hpost;
      [|unfold GetReactedUsers; by rewrite Hpost].
    destruct (reactions s !! postID) as [rows|] eqn:Hrows;
      [|unfold GetReactedUsers; by rewrite Hpost, Hrows].
    apply (Hcall postID limit offset s post Hpost).
    unfold ledger. by rewrite Hrows.
Qed.

(** X12.  The two views of the reactions of a post agree after a run from
    the empty store in which every [SavePost] leaves the counts alone and
    stores a post with a counter map of its own (and that has fewer calls
    than the largest [int]): for a stored post and any kind, the number of
    users that [GetReactedUsers] lists for the kind, without a limit, is
    the count of that kind on the post, which is what [GetReactionCounts]
    reports. *)
Theorem reacted_users_match_counts (ops : list op) (postID : string)
    (post : Post) (kind : ReactionType) :
  counts_kept NewInMemoryPostStore ops →
  Z.of_nat (length ops) <= max_int →
  posts (run ops) !! postID = Some post →
  ∃ users counts,
    GetReactedUsers postID (Some kind) 0 0 (run ops) = Some (Ok users) ∧
    GetReactionCounts postID (run ops) = Ok counts ∧
    Z.of_nat (length users) = count_of (Some counts) kind.
Proof.
  intros Hkept Hlen Hpost.
  destruct (run_from_agree ops NewInMemoryPostStore 0 counts_agree_empty)
    as [[Hled Hcnt] _]; [|done|done|].
  { intros pid. unfold ledger. simpl. rewrite lookup_empty. simpl.
    rewrite map_size_empty. lia. }
  fold (run ops) in Hled, Hcnt.
  specialize (Hcnt postID post kind Hpost).
  destruct (GetReactedUsers_ranked (Some kind) (ledger (run ops) postID))
    as (ranked & Hcall & Hperm & _).
  unfold GetReactionCounts. rewrite Hpost.
  destruct (reactions (run ops) !! postID) as [rows|] eqn:Hrows.
  - exists ranked, (counters post). split_and!; [|done|].
    + rewrite (Hcall postID 0 0 (run ops) post Hpost)
        by (unfold ledger; by rewrite Hrows).
      by rewrite paginate_no_limit.
    + rewrite count_counters, Hcnt, kind_rows_length, Hperm.
      by rewrite length_fmap.
  - exists [], (counters post). split_and!; [|done|].
    + unfold GetReactedUsers. by rewrite Hpost, Hrows.
    + rewrite count_counters, Hcnt. unfold ledger. rewrite Hrows. simpl.
      by rewrite kind_rows_empty.
Qed.

(** X13.  Each call of [GetUserFeed] paginates a ranking of exactly the
    stored posts whose visibility is "public", newest first; the order of
    posts created at the same time is left open.  The posts are those of
    all users: the [userID] argument is not looked at. *)
Theorem GetUserFeed_spec (userID : string) (limit offset : Z) (s : t) :
  ∃ ranked,
    ranked ≡ₚ stored_public s ∧
    StronglySorted (λ a b, CreatedAt a >= CreatedAt b) ranked ∧
    GetUserFeed userID limit offset s = paginate limit offset ranked.
Proof.
  exists (sort_Slice (λ a b, bool_decide (CreatedAt a > CreatedAt b))
            (public_posts s)).
  split_and!.
  - by rewrite sort_Slice_perm, public_posts_perm.
  - by apply sort_Slice_descending.
  - done.
Qed.

End ReactedUsers.

Lemma reacted_users_match_counts_witness :
  let ops :=
    [OpSavePost (sample_post "p1" "u1" ["go"] 1);
     OpSaveReaction 5 "p1" "u2" ReactionLike;
     OpSaveReaction 6 "p1" "u3" ReactionLike;
     OpSaveReaction 7 "p1" "u4" ReactionLove;
     OpDeleteReaction "p1" "u3" ReactionLike;
     OpSaveReaction 8 "p1" "u5" ReactionLike] in
  counts_kept NewInMemoryPostStore ops ∧
  Z.of_nat (length ops) <= max_int ∧
  GetReactedUsers "p1" (Some ReactionLike) 0 0 (run ops) = Some (Ok ["u5"; "u2"]) ∧
  ∃ users counts,
    GetReactedUsers "p1" (Some ReactionLike) 0 0 (run ops) = Some (Ok users) ∧
    GetReactionCounts "p1" (run ops) = Ok counts ∧
    Z.of_nat (length users) = count_of (Some counts) ReactionLike.
Proof.
  intros ops.
  assert (counts_kept NewInMemoryPostStore ops) as Hkept.
  { cbn [counts_kept ops]. split_and!; try exact I.
    apply keeps_counts_new; reflexivity. }
  assert (Z.of_nat (length ops) <= max_int) as Hlen by (vm_compute; discriminate).
  split; [exact Hkept|]. split; [exact Hlen|]. split; [vm_compute; reflexivity|].
  destruct (posts (run ops) !! "p1") as [post|] eqn:Hpost; [|by vm_compute in Hpost].
  exact (reacted_users_match_counts ops "p1" post ReactionLike Hkept Hlen Hpost).
Defined.

(** ** Pagination *)

(** X14.  The pagination block shared by [ListPosts], [GetUserFeed] and
    [GetReactedUsers] panics, in its slice expression, exactly when the limit
    is positive, the offset lies below the length of the list, and the
    offset is negative or [offset + limit] overflows [int] to a value below
    the offset.  In every other case it returns. *)
Theorem paginate_panics_iff {A : Type} (limit offset : Z) (result : list A) :
  paginate limit offset result = None
  ↔ limit > 0 ∧ offset < Z.of_nat (length result) ∧
    (offset < 0 ∨ int_add offset limit < offset).
Proof.
  unfold paginate, slice_expr.
  destruct (bool_decide_reflect (limit > 0)) as [Hlimit|Hlimit];
    [|split; [done|lia]].
  cbv zeta.
  destruct (bool_decide_reflect (offset < Z.of_nat (length result))) as [Hoff|Hoff];
    [|split; [done|lia]].
  destruct (bool_decide_reflect (int_add offset limit > Z.of_nat (length result)))
    as [Hend|Hend].
  - case_bool_decide as Hok; (split; [intros ?|intros (_ & _ & ?)]);
      try done; lia.
  - case_bool_decide as Hok; (split; [intros ?|intros (_ & _ & ?)]);
      try done; lia.
Qed.

(** X15.  When the pagination block returns, the page is a run of
    consecutive elements of the list, in the order of the list.  For a
    positive limit the page has at most [limit] elements and, unless it is
    empty, starts right after the first [offset] elements; for a limit of
    zero or less the page is the whole list. *)
Theorem paginate_segment {A : Type} (limit offset : Z) (result page : list A) :
  paginate limit offset result = Some page →
  ∃ before after,
    result = before ++ page ++ after ∧
    (limit > 0 → Z.of_nat (length page) <= limit ∧
                 (page ≠ [] → Z.of_nat (length before) = offset)) ∧
    (limit <= 0 → page = result).
Proof.
  unfold paginate, slice_expr.
  destruct (bool_decide_reflect (limit > 0)) as [Hlimit|Hlimit].
  2: { intros [= <-]. exists [], []. rewrite app_nil_r. split_and!; [done|lia|done]. }
  cbv zeta.
  destruct (bool_decide_reflect (offset < Z.of_nat (length result))) as [Hoff|Hoff].
  2: { intros [= <-]. exists [], result. split_and!; [done| |lia].
       intros _. split; [simpl; lia|done]. }
  assert (0 <= offset → int_add offset limit <= offset + limit) as Hwrap.
  { intros Hpos. unfold int_add, int_wrap.
    pose proof (Z.mod_le (offset + limit + 2 ^ 63) (2 ^ 64)). lia. }
  destruct (bool_decide_reflect (int_add offset limit > Z.of_nat (length result)))
    as [Hend|Hend].
  - case_bool_decide as Hok; [|done]. intros [= <-].
    destruct Hok as (Hlo & Hhi & Hlen). specialize (Hwrap Hlo).
    exists (take (Z.to_nat offset) result),
           (drop (Z.to_nat (Z.of_nat (length result) - offset))
                 (drop (Z.to_nat offset) result)).
    split_and!.
    + by rewrite !take_drop.
    + intros _. split.
      * rewrite length_take, length_drop. lia.
      * intros _. rewrite length_take. lia.
    + lia.
  - case_bool_decide as Hok; [|done]. intros [= <-].
    destruct Hok as (Hlo & Hhi & Hlen). specialize (Hwrap Hlo).
    exists (take (Z.to_nat offset) result),
           (drop (Z.to_nat (int_add offset limit - offset))
                 (drop (Z.to_nat offset) result)).
    split_and!.
    + by rewrite !take_drop.
    + intros _. split.
      * rewrite length_take, length_drop. lia.
      * intros _. rewrite length_take. lia.
    + lia.
Qed.

Lemma paginate_segment_witness :
  paginate 2 1 ["a"; "b"; "c"; "d"] = Some ["b"; "c"] ∧
  ∃ before after,
    ["a"; "b"; "c"; "d"] = before ++ ["b"; "c"] ++ after ∧
    (2 > 0 → Z.of_nat (length ["b"; "c"]) <= 2 ∧
             (["b"; "c"] ≠ [] → Z.of_nat (length before) = 1)) ∧
    (2 <= 0 → ["b"; "c"] = ["a"; "b"; "c"; "d"]).
Proof.
  split; [reflexivity|].
  apply (paginate_segment 2 1 ["a"; "b"; "c"; "d"] ["b"; "c"]). reflexivity.
Defined.

(** ** What [ListPosts] returns *)

Lemma passes_in_window (filter : PostFilter) (post : Post) :
  passes filter post = true ↔ in_window filter post.
Proof.
  unfold passes, in_window. rewrite andb_true_iff, negb_true_iff, andb_false_iff.
  rewrite !bool_decide_eq_false.
  assert (FilterVisibility filter = "" ∨ Visibility post = FilterVisibility filter
          ↔ ¬ FilterVisibility filter ≠ "" ∨ ¬ Visibility post ≠ FilterVisibility filter)
    as <-.
  { destruct (decide (FilterVisibility filter = "")),
             (decide (Visibility post = FilterVisibility filter)); naive_solver. }
  destruct (FilterTimeRange filter) as [tr|]; [|tauto].
  rewrite negb_true_iff, orb_false_iff, !negb_false_iff, !bool_decide_eq_true.
  split; intros [? ?]; (split; [done|lia]).
Qed.

Lemma paginate_elem_of {A : Type} (limit offset : Z) (result page : list A) (x : A) :
  paginate limit offset result = Some page → x ∈ page → x ∈ result.
Proof.
  unfold paginate, slice_expr. case_bool_decide; [|by intros [= <-]].
  cbv zeta. case_bool_decide; [|intros [= <-]; by intros ?%elem_of_nil].
  case_bool_decide; [|done]. intros [= <-] Hin.
  by apply subseteq_take, subseteq_drop in Hin.
Qed.

Lemma only_true_empty : only_true ∅.
Proof. intros k b Hk. by rewrite lookup_empty in Hk. Qed.

Lemma only_true_insert (m : gmap string bool) (k : string) :
  only_true m → only_true (<[k := true]> m).
Proof.
  intros Hm k' b. destruct (decide (k' = k)) as [->|Hne].
  - rewrite lookup_insert_eq. by intros [= <-].
  - rewrite lookup_insert_ne by done. apply Hm.
Qed.

Lemma only_true_mark_all (ids : list string) (acc : gmap string bool) :
  only_true acc → only_true (foldl (λ acc pid, <[pid := true]> acc) acc ids).
Proof.
  revert acc. induction ids as [|x ids IH]; intros acc Hacc; [done|].
  simpl. by apply IH, only_true_insert.
Qed.

Lemma only_true_tag_pass (cands : option (gmap string bool)) (i : nat)
    (ids : list string) (acc : gmap string bool) :
  only_true acc → only_true (tag_pass cands i ids acc).
Proof.
  unfold tag_pass. revert acc. induction ids as [|x ids IH]; intros acc Hacc; [done|].
  simpl. apply IH. destruct (_ || _); [by apply only_true_insert|done].
Qed.

Lemma only_true_tag_loop (idx : gmap string (list string))
    (cands : option (gmap string bool)) (tags : list string) (i : nat)
    (acc : gmap string bool) :
  only_true acc → only_true (tag_loop idx cands i tags acc).
Proof.
  revert i acc. induction tags as [|tag tags IH]; intros i acc Hacc; [done|].
  simpl. by apply IH, only_true_tag_pass.
Qed.

Lemma candidateIDs_only_true (filter : PostFilter) (s : t) (c : gmap string bool) :
  candidateIDs filter s = Some c → only_true c.
Proof.
  unfold candidateIDs. case_bool_decide.
  - intros [= <-]. apply only_true_tag_loop, only_true_empty.
  - destruct (decide (FilterUserID filter = "")); [done|].
    intros [= <-]. apply only_true_mark_all, only_true_empty.
Qed.

Lemma only_true_candidate (c : gmap string bool) (pid : string) :
  only_true c → is_Some (c !! pid) ↔ candidate (Some c) pid = true.
Proof.
  intros Hc. unfold candidate. split.
  - intros [b Hb]. rewrite Hb. simpl. by apply (Hc pid).
  - destruct (c !! pid); [by eexists|done].
Qed.

(** In a store whose indices reflect its posts, the candidate set of
    [ListPosts] holds the ID of a stored post exactly when the user and tag
    fields of the filter select the post. *)
Lemma candidateIDs_selected (filter : PostFilter) (s : t) (pid : string) (p : Post) :
  indexed s → posts s !! pid = Some p →
  match candidateIDs filter s with
  | Some c => is_Some (c !! pid)
  | None => True
  end ↔ selected filter p.
Proof.
  intros (Huser & Htag & _) Hp.
  assert (∀ user, pid ∈ index_get (userPosts s) user ↔ UserID p = user) as Hu.
  { intros user. rewrite Huser. split; [intros (q & Hq & <-); congruence|].
    intros <-. by exists p. }
  assert (∀ tag, pid ∈ index_get (tagPosts s) tag ↔ tag ∈ Tags p) as Ht.
  { intros tag. rewrite Htag. split; [intros (q & Hq & Hin); congruence|].
    intros Hin. by exists p. }
  unfold selected. destruct (FilterTags filter) as [|first later] eqn:Htags.
  - destruct (decide (FilterUserID filter = "")) as [Hnone|Hsome].
    + rewrite candidateIDs_no_filter by done. naive_solver.
    + destruct (candidateIDs_user_only filter s Hsome Htags) as (c & Hc & Hmem).
      rewrite Hc, (only_true_candidate c pid (candidateIDs_only_true _ _ _ Hc)).
      rewrite Hmem, Hu. naive_solver.
  - destruct (candidateIDs_tags filter s first later Htags) as (c & Hc & Hmem).
    rewrite Hc, (only_true_candidate c pid (candidateIDs_only_true _ _ _ Hc)).
    rewrite Hmem, Hu, Ht. setoid_rewrite Ht. done.
Qed.

Section Listing.
Context `{GoRuntime}.

Lemma sorted_results_elem_of (filter : PostFilter) (s : t) (p : Post) :
  p ∈ sorted_results filter s ↔ p ∈ collect filter s.
Proof.
  unfold sorted_results. destruct (decide (FilterSortBy filter = "")); [done|].
  by rewrite sort_Slice_perm.
Qed.

(** X16.  Whatever the store, its indices included, and whatever the
    filter: every post that [ListPosts] returns is a stored post, has the
    visibility the filter asks for (if it asks for one), and was created
    strictly after the start and strictly before the end of the time range
    of the filter (if it has one). *)
Theorem ListPosts_sound (filter : PostFilter) (s : t) (result : list Post)
    (p : Post) :
  ListPosts filter s = Some result → p ∈ result →
  (∃ pid, posts s !! pid = Some p) ∧ in_window filter p.
Proof.
  intros Hlist Hin. unfold ListPosts in Hlist.
  apply (paginate_elem_of _ _ _ _ _ Hlist), sorted_results_elem_of in Hin.
  apply collect_spec in Hin as (pid & Hp & Hpass & _).
  split; [by exists pid|by apply passes_in_window].
Qed.

(** X17.  In a store whose indices reflect its posts, the user and tag
    fields of a filter work as follows.  Every post that [ListPosts] returns
    is selected: without tags it belongs to the user of the filter (any post
    for an empty user); with tags it carries the first tag, or it carries
    one of the later tags and belongs to the user of the filter.  With a
    limit of zero or less [ListPosts] returns, and returns exactly the
    stored posts that are selected and pass the visibility and time
    tests. *)
Theorem ListPosts_selects (filter : PostFilter) (s : t) :
  indexed s →
  (∀ result p, ListPosts filter s = Some result → p ∈ result → selected filter p) ∧
  (FilterLimit filter <= 0 →
     ∃ result, ListPosts filter s = Some result ∧
       ∀ p, p ∈ result
            ↔ (∃ pid, posts s !! pid = Some p) ∧ in_window filter p ∧
              selected filter p).
Proof.
  intros Hs.
  assert (∀ p, p ∈ sorted_results filter s
               ↔ (∃ pid, posts s !! pid = Some p) ∧ in_window filter p ∧
                 selected filter p) as Hmem.
  { intros p. rewrite sorted_results_elem_of, collect_spec. split.
    - intros (pid & Hp & Hpass & Hcand). split_and!.
      + by exists pid.
      + by apply passes_in_window.
      + by apply (candidateIDs_selected filter s pid p Hs Hp).
    - intros ((pid & Hp) & Hwin & Hsel). exists pid. split_and!.
      + done.
      + by apply passes_in_window.
      + by apply (candidateIDs_selected filter s pid p Hs Hp). }
  split.
  - intros result p Hlist Hin. unfold ListPosts in Hlist.
    apply (paginate_elem_of _ _ _ _ _ Hlist), Hmem in Hin. tauto.
  - intros Hlimit. exists (sorted_results filter s). split; [|exact Hmem].
    unfold ListPosts. by apply paginate_no_limit.
Qed.

End Listing.

(** Settles [index_safe] at a concrete store and post. *)
Ltac index_safe_by_computation :=
  vm_compute; first [reflexivity | apply (bool_decide_unpack _); vm_compute; exact I].

Lemma ListPosts_sound_witness :
  let filter :=
    {| FilterUserID := ""; FilterTags := []; 
       FilterTimeRange := Some {| Start := 2; End_ := 6 |};
       FilterVisibility := "public"; FilterLimit := 2; FilterOffset := 0;
       FilterSortBy := "created_at"; FilterSortOrder := "desc" |} in
  ∃ result p,
    ListPosts filter eight_posts = Some result ∧ p ∈ result ∧
    ((∃ pid, posts eight_posts !! pid = Some p) ∧ in_window filter p).
Proof.
  intros filter.
  destruct (ListPosts filter eight_posts) as [result|] eqn:Hlist;
    [|by vm_compute in Hlist].
  destruct result as [|p rest]; [by vm_compute in Hlist|].
  pose proof (list_elem_of_here p rest) as Hin.
  exists (p :: rest), p. split; [reflexivity|]. split; [exact Hin|].
  exact (ListPosts_sound filter eight_posts (p :: rest) p Hlist Hin).
Defined.

Lemma ListPosts_selects_witness :
  let s := run [OpSavePost (sample_post "p1" "u1" ["go"; "rust"] 1);
                OpSavePost (sample_post "p2" "u2" ["go"] 2);
                OpSavePost (sample_post "p3" "u1" ["rust"] 3);
                OpSavePost (sample_post "p4" "u2" ["rust"] 4)] in
  let filter := by_user_and_tags "u1" ["go"; "rust"] in
  indexed s ∧
  ∃ result,
    ListPosts filter s = Some result ∧ length result = 3%nat ∧
    ∀ p, p ∈ result
         ↔ (∃ pid, posts s !! pid = Some p) ∧ in_window filter p ∧ selected filter p.
Proof.
  intros s filter.
  assert (indexed s) as Hs.
  { apply index_safe_run_indexed; [apply indexed_empty|].
    cbn [index_safe_run]. split_and!; try exact I; index_safe_by_computation. }
  split; [exact Hs|].
  destruct (ListPosts_selects filter s Hs) as [_ Hall].
  destruct Hall as (result & Hlist & Hmem); [reflexivity|].
  exists result. split; [exact Hlist|]. split; [|exact Hmem].
  vm_compute in Hlist. injection Hlist as <-. reflexivity.
Defined.





Lemma DeletePost_clears_indices_witness :
  let s := run [OpSavePost (sample_post "p1" "u1" ["go"; "rust"] 1);
                OpSavePost (sample_post "p2" "u1" ["go"] 2)] in
  let s' := (DeletePost "p1" "u1" s).1 in
  indexed s ∧
  index_get (userPosts s') "u1" = ["p2"] ∧
  (∀ user, "p1" ∉ index_get (userPosts s') user) ∧
  (∀ tag, "p1" ∉ index_get (tagPosts s') tag).
Proof.
  intros s s'. subst s'.
  assert (indexed s) as Hs.
  { apply index_safe_run_indexed; [apply indexed_empty|].
    cbn [index_safe_run]. split_and!; try exact I; index_safe_by_computation. }
  split; [exact Hs|]. split; [vm_compute; reflexivity|].
  apply (DeletePost_clears_indices "p1" (sample_post "p1" "u1" ["go"; "rust"] 1) s Hs).
  vm_compute. reflexivity.
Defined.

(** ** The manager over the in-memory store *)

Section ManagerInMemory.
Context `{GoRuntime}.

(** X20.  [UpdatePost] of the manager over the in-memory store.  It
    succeeds exactly when the post has an ID under which a post of the same
    owner is stored; for an ID that is not stored the error is
    [ErrPostNotFound].  When it fails, the store and the post of the caller
    are as they were.  When it succeeds, the post of the caller gets the
    current time as [UpdatedAt] and the [CreatedAt] of the stored post,
    whatever [CreatedAt] it carried, and that post is what [GetPost]
    returns for the ID afterwards; the other posts and all reaction ledgers
    are as before. *)
Theorem UpdatePost_in_memory (now : Z) (post : Post) (s : t) :
  let out := PostManagerImpl.UpdatePost now post s in
  (out.2 = None
   ↔ ID post ≠ "" ∧
     ∃ existing, posts s !! ID post = Some existing ∧
                 UserID existing = UserID post) ∧
  (ID post ≠ "" → posts s !! ID post = None → out.2 = Some ErrPostNotFound) ∧
  (out.2 ≠ None → out.1.1 = s ∧ out.1.2 = post) ∧
  (∀ existing,
     ID post ≠ "" → posts s !! ID post = Some existing →
     UserID existing = UserID post →
     out.1.2 = with_CreatedAt (CreatedAt existing) (with_UpdatedAt now post) ∧
     PostManagerImpl.GetPost (ID post) out.1.1 = Ok out.1.2 ∧
     (∀ other, other ≠ ID post →
        PostManagerImpl.GetPost other out.1.1 = PostManagerImpl.GetPost other s) ∧
     reactions out.1.1 = reactions s).
Proof.
  intros out. subst out.
  unfold PostManagerImpl.UpdatePost, PostManagerImpl.GetPost.
  unfold store_GetPost, store_SavePost. simpl. unfold GetPost.
  destruct (decide (ID post = "")) as [Hid|Hid]; simpl.
  { split_and!; try done; naive_solver. }
  destruct (posts s !! ID post) as [existing|] eqn:Hex; simpl.
  2: { split_and!; try done; naive_solver. }
  destruct (decide (UserID existing = UserID post)) as [Hown|Hown]; simpl.
  2: { split_and!; try done; naive_solver. }
  set (updated := with_CreatedAt (CreatedAt existing) (with_UpdatedAt now post)).
  destruct (SavePost_posts updated s) as [Hposts Hreact].
  destruct (SavePost updated s) as [s' err] eqn:Hsave.
  assert (err = None) as ->.
  { unfold SavePost in Hsave. destruct (posts s !! ID updated); by injection Hsave. }
  simpl in *. split_and!; try done.
  - split; [|done]. intros _. split; [done|]. by exists existing.
  - intros existing' _ [= <-] _. fold updated. split_and!; try done.
    + rewrite Hposts. change (ID updated) with (ID post).
      by rewrite lookup_insert_eq.
    + intros other Hne. rewrite Hposts. change (ID updated) with (ID post).
      by rewrite lookup_insert_ne.
Qed.

(** X21.  [CreatePost] of the manager over the in-memory store, for a post
    with a user: it returns the generated ID when the given ID is empty and
    the given ID otherwise, and [GetPost] then returns, for that ID, the
    post as the caller holds it after the call, created and updated at the
    current time; [GetReactionCounts] reports the given counts, none for a
    nil map.  The posts under the other IDs and all reaction ledgers are as
    before.  No test is made on a post already stored under the ID: it is
    replaced, whoever owns it. *)
Theorem CreatePost_then_GetPost (uuid : string) (now : Z) (post : Post) (s : t) :
  UserID post ≠ "" →
  let out := PostManagerImpl.CreatePost uuid now post s in
  let id := if decide (ID post = "") then uuid else ID post in
  out.2 = Ok id ∧ ID out.1.2 = id ∧ UserID out.1.2 = UserID post ∧
  CreatedAt out.1.2 = now ∧ UpdatedAt out.1.2 = now ∧
  PostManagerImpl.GetPost id out.1.1 = Ok out.1.2 ∧
  PostManagerImpl.GetReactionCounts id out.1.1 = Ok (default ∅ (Reactions post)) ∧
  (∀ other, other ≠ id →
     PostManagerImpl.GetPost other out.1.1 = PostManagerImpl.GetPost other s) ∧
  reactions out.1.1 = reactions s.
Proof.
  intros Hu out id. subst out.
  unfold PostManagerImpl.CreatePost, PostManagerImpl.GetPost,
    PostManagerImpl.GetReactionCounts.
  rewrite decide_False by done.
  set (created := match Reactions _ with Some _ => _ | None => _ end).
  assert (ID created = id ∧ UserID created = UserID post ∧
          CreatedAt created = now ∧ UpdatedAt created = now ∧
          counters created = default ∅ (Reactions post))
    as (Hcid & Hcu & Hcc & Hcup & Hcr).
  { unfold created, id, counters. destruct post as [pid ? ? ? ? ? ? rs ? ? ?]. simpl.
    by destruct (decide (pid = "")), rs. }
  unfold store_SavePost, store_GetPost, store_GetReactionCounts. simpl.
  unfold GetPost, GetReactionCounts.
  destruct (SavePost_posts created s) as [Hposts Hreact].
  destruct (SavePost created s) as [s' err] eqn:Hsave.
  assert (err = None) as ->.
  { unfold SavePost in Hsave. destruct (posts s !! ID created); by injection Hsave. }
  simpl in *. rewrite Hposts, Hcid, !lookup_insert_eq, Hcr.
  split_and!; try done.
  intros other Hne. by rewrite lookup_insert_ne.
Qed.

End ManagerInMemory.

Lemma CreatePost_then_GetPost_witness :
  let s := run [OpSavePost (sample_post "p1" "u1" ["go"] 1);
                OpSaveReaction 5 "p1" "u3" ReactionLike] in
  let post := with_Reactions None (sample_post "p1" "u2" ["rust"] 0) in
  let out := PostManagerImpl.CreatePost "generated" 42 post s in
  UserID post ≠ "" ∧
  out.2 = Ok "p1" ∧
  (UserID <$> posts s !! "p1") = Some "u1" ∧
  (UserID <$> posts out.1.1 !! "p1") = Some "u2" ∧
  PostManagerImpl.GetPost "p1" out.1.1 = Ok out.1.2 ∧
  PostManagerImpl.GetReactionCounts "p1" out.1.1 = Ok ∅ ∧
  size (ledger out.1.1 "p1") = 1%nat.
Proof.
  intros s post out. subst out.
  assert (UserID post ≠ "") as Hu by discriminate.
  destruct (CreatePost_then_GetPost "generated" 42 post s Hu)
    as (Hid & _ & _ & _ & _ & Hget & Hcounts & _ & _).
  split; [exact Hu|]. split; [exact Hid|].
  split; [vm_compute; reflexivity|]. split; [vm_compute; reflexivity|].
  split; [exact Hget|]. split; [exact Hcounts|]. vm_compute. reflexivity.
Defined.

(** ** Sums that do not depend on the iteration order *)

(** X22.  The sum that [sumReactions] computes, and with it the engagement
    score of [GetTrendingPosts] and the "reactions" sort key of [ListPosts],
    does not depend on the order in which the runtime ranges over the
    counter map: any two runtimes give the same value, wrap-around
    included. *)
Theorem sumReactions_order_independent (R1 R2 : GoRuntime)
    (reactions : option (gmap ReactionType Z)) (post : Post) :
  @sumReactions R1 reactions = @sumReactions R2 reactions ∧
  @engagement R1 post = @engagement R2 post.
Proof.
  split.
  - by rewrite !sumReactions_total.
  - by rewrite !engagement_total.
Qed.

(** ** Counts stay within bounds *)

(** X23.  The reaction calls keep the counts in range: if every count of
    every stored post lies between 0 and [n] (below the largest [int]),
    then after a [SaveReaction] every count lies between 0 and [n + 1], and
    after a [DeleteReaction] between 0 and [n].  No reaction call makes a
    count negative, and none raises a count by more than one. *)
Theorem reaction_counts_stay_within (now : Z) (postID userID : string)
    (kind : ReactionType) (s : t) (n : Z) :
  counts_within n s → n < max_int →
  counts_within (n + 1) (SaveReaction now postID userID kind s).1 ∧
  counts_within n (DeleteReaction postID userID kind s).1.
Proof.
  intros Hwithin Hmax. split.
  - by apply SaveReaction_counts_within.
  - apply DeleteReaction_counts_within; [done|lia].
Qed.

Lemma reaction_counts_stay_within_witness :
  let s0 := (SavePost (sample_post "p1" "u1" [] 1) NewInMemoryPostStore).1 in
  let s := (SaveReaction 5 "p1" "u2" ReactionLike s0).1 in
  counts_within 1 s ∧ 1 < max_int ∧
  counts_within 2 (SaveReaction 6 "p1" "u3" ReactionLove s).1 ∧
  counts_within 1 (DeleteReaction "p1" "u2" ReactionLike s).1.
Proof.
  intros s0 s.
  assert (counts_within 0 s0) as Hzero.
  { intros pid post k Hpost. unfold s0 in Hpost.
    destruct (SavePost_posts (sample_post "p1" "u1" [] 1) NewInMemoryPostStore)
      as [Hposts _].
    rewrite Hposts in Hpost. simpl in Hpost.
    apply lookup_insert_Some in Hpost as [[_ <-]|[_ Hpost]];
      [|by rewrite lookup_empty in Hpost].
    unfold count_of. simpl. rewrite lookup_empty. simpl. lia. }
  assert (0 < max_int) as Hpos by (unfold max_int; lia).
  assert (1 < max_int) as Hmax by (unfold max_int; lia).
  pose proof (SaveReaction_counts_within 5 "p1" "u2" ReactionLike s0 0 Hzero Hpos)
    as Hone.
  change (0 + 1) with 1 in Hone. fold s in Hone.
  destruct (reaction_counts_stay_within 6 "p1" "u3" ReactionLove s 1 Hone Hmax)
    as [Hsave _].
  destruct (reaction_counts_stay_within 6 "p1" "u2" ReactionLike s 1 Hone Hmax)
    as [_ Hdelete].
  split; [exact Hone|]. split; [exact Hmax|]. split; [exact Hsave|exact Hdelete].
Defined.
